(** * Vector-index synchronisation and retrieval cache

    A shallow embedding of the car-assistant backend:
    - [utils/cache.js]             (module [SimpleCache]),
    - [controllers/ragController.js] (module [Rag]),
    - [controllers/carController.js], the document builder (module [CarDoc]),
    - [listeners/vectorSync.js]    (module [VectorSync]).

    JavaScript strings are modelled by [string]; a character stands for one
    code unit in the Latin-1 range.  Numbers that the code only stores or
    compares are integers ([Z], milliseconds for [Date.now()]).  Asynchronous
    handlers are run to completion one after the other. *)

From Stdlib Require Import ZArith Lia Ascii String.
From stdpp Require Import base option list gmap strings pretty.

Local Open Scope string_scope.
Local Open Scope Z_scope.

(** ** JavaScript string primitives *)

Module Js.

(** [WhiteSpace] and [LineTerminator] code points below 256, the characters
    [String.prototype.trim] strips: TAB, LF, VT, FF, CR, SP and NBSP. *)
Definition isWhiteSpace (c : ascii) : bool :=
  let n := N_of_ascii c in
  ((9 <=? n) && (n <=? 13) || (n =? 32) || (n =? 160))%N.

(** [toLowerCase] on one code unit: A-Z and the Latin-1 capitals
    (U+00C0..U+00DE except the multiplication sign U+00D7) move up by 32. *)
Definition lowerChar (c : ascii) : ascii :=
  let n := N_of_ascii c in
  if ((65 <=? n) && (n <=? 90)
      || (192 <=? n) && (n <=? 222) && negb (n =? 215))%N
  then ascii_of_N (n + 32) else c.

Fixpoint toLowerCase (s : string) : string :=
  match s with
  | EmptyString => EmptyString
  | String c r => String (lowerChar c) (toLowerCase r)
  end.

Fixpoint trimStart (s : string) : string :=
  match s with
  | EmptyString => EmptyString
  | String c r => if isWhiteSpace c then trimStart r else s
  end.

Definition isEmpty (s : string) : bool :=
  match s with EmptyString => true | String _ _ => false end.

Fixpoint trimEnd (s : string) : string :=
  match s with
  | EmptyString => EmptyString
  | String c r =>
      let r' := trimEnd r in
      if isEmpty r' && isWhiteSpace c then EmptyString else String c r'
  end.

Definition trim (s : string) : string := trimEnd (trimStart s).

(** [a || b] on a possibly missing string: a missing or empty left operand
    yields the right one. *)
Definition orElse (a : option string) (b : string) : string :=
  match a with
  | Some s => if isEmpty s then b else s
  | None => b
  end.

(** [Array.prototype.join]. *)
Fixpoint join (sep : string) (parts : list string) : string :=
  match parts with
  | [] => ""
  | [p] => p
  | p :: rest => p ++ sep ++ join sep rest
  end.

End Js.

(** ** Outcome of a call that may throw *)

Inductive Result (A : Type) : Type :=
| Ok (a : A)
| Throw (error : string).
Arguments Ok {A} a.
Arguments Throw {A} error.

(** ** utils/cache.js *)

Module SimpleCache.

Section WithValue.
Context {V : Type}.

Record Item : Type := { value : V; expiresAt : Z }.

(** [this.cache] and [this.ttl]. *)
Record t : Type := { cache : gmap string Item; ttl : Z }.

Definition defaultTtl : Z := 5 * 60 * 1000.

Definition new (ttlMs : Z) : t := {| cache := ∅; ttl := ttlMs |}.

(** [set(key, value)], with [now] the value of [Date.now()]. *)
Definition set (now : Z) (key : string) (v : V) (c : t) : t :=
  let expiresAt := now + ttl c in
  {| cache := <[key := {| value := v; expiresAt := expiresAt |}]> (cache c);
     ttl := ttl c |}.

(** [get(key)]: [None] is the [null] the method returns. *)
Definition get (now : Z) (key : string) (c : t) : option V * t :=
  match cache c !! key with
  | None => (None, c)
  | Some item =>
      if now >? expiresAt item
      then (None, {| cache := delete key (cache c); ttl := ttl c |})
      else (Some (value item), c)
  end.

Definition clear (c : t) : t := {| cache := ∅; ttl := ttl c |}.

Definition size (c : t) : nat := base.size (cache c).

(** [cleanup()]: every entry with [now > item.expiresAt] is deleted. *)
Definition cleanup (now : Z) (c : t) : t :=
  {| cache := filter (λ kv, ¬ (now > expiresAt kv.2)) (cache c);
     ttl := ttl c |}.
End WithValue.

Arguments Item : clear implicits.
Arguments t : clear implicits.

End SimpleCache.

(** ** controllers/ragController.js *)

Module Rag.

Record Source : Type :=
  { src_name : string; src_brand : string; src_price : string;
    src_category : string }.

(** The object built at [const responseData = {...}]; [cacheHit] is only
    present on the copy sent for a cache hit. *)
Record ResponseData : Type :=
  { query : string;
    answer : string;
    responseTime : string;
    cached : bool;
    sources : list Source;
    cacheHit : option bool }.

Inductive Body : Type :=
| Message (message : string)
| Answer (data : ResponseData)
| Failure (message error : string).

(** [res.status(code).json(body)]; [res.json] alone answers 200. *)
Record Response : Type := { status : Z; body : Body }.

(** What the retrieval and generation steps between the cache check and the
    cache store produce: the model's answer, the elapsed total time and the
    sources extracted from the search results. *)
Record Composed : Type :=
  { llmAnswer : string; totalTime : Z; extracted : list Source }.

(** The surroundings of one request: the clock readings of the two cache
    calls and the outcome of the pool, vector-search and model calls, any of
    which may throw. *)
Record Env : Type :=
  { tLookup : Z;
    tStore : Z;
    compose : string -> Result Composed }.

(** [export const ragCache = new SimpleCache(3 * 60 * 1000)]. *)
Definition ragCacheTtl : Z := 3 * 60 * 1000.
Definition ragCache : SimpleCache.t ResponseData := SimpleCache.new ragCacheTtl.

Definition cacheKey (query : string) : string := Js.trim (Js.toLowerCase query).

(** [{ ...cachedResponse, cached: true, cacheHit: true }]. *)
Definition asHit (cachedResponse : ResponseData) : ResponseData :=
  {| query := query cachedResponse;
     answer := answer cachedResponse;
     responseTime := responseTime cachedResponse;
     cached := true;
     sources := sources cachedResponse;
     cacheHit := Some true |}.

Definition askCarAssistant (env : Env) (reqQuery : option string)
    (cache : SimpleCache.t ResponseData)
  : Response * SimpleCache.t ResponseData :=
  let badRequest :=
    ({| status := 400; body := Message "Please provide a question." |}, cache) in
  match reqQuery with
  | None => badRequest
  | Some q =>
      if Js.isEmpty q || (String.length (Js.trim q) =? 0)%nat
      then badRequest
      else
        let key := cacheKey q in
        let '(cachedResponse, cache) :=
          SimpleCache.get (tLookup env) key cache in
        match cachedResponse with
        | Some stored =>
            ({| status := 200; body := Answer (asHit stored) |}, cache)
        | None =>
            match compose env q with
            | Ok r =>
                let responseData :=
                  {| query := q;
                     answer := llmAnswer r;
                     responseTime := pretty (totalTime r) ++ "ms";
                     cached := false;
                     sources := extracted r;
                     cacheHit := None |} in
                ({| status := 200; body := Answer responseData |},
                 SimpleCache.set (tStore env) key responseData cache)
            | Throw error =>
                ({| status := 500;
                    body := Failure "Failed to generate RAG response" error |},
                 cache)
            end
        end
  end.

End Rag.

(** ** Records of the primary store and values of schema-less objects *)

(** A scalar held in a schema-less object ([updatedFields], [metadata]). *)
Inductive JsVal : Type :=
| JNull
| JBool (b : bool)
| JNum (n : Z)
| JStr (s : string).

(** An object literal: a property whose value is [undefined] ([None]) is not
    part of the stored document. *)
Definition object (props : list (string * option JsVal)) : gmap string JsVal :=
  list_to_map (omap (λ kv, pair kv.1 <$> kv.2) props).

(** An [ObjectId] is identified with its hexadecimal string, so [toString]
    is the identity. *)
Definition ObjectId : Type := string.
Definition toString (id : ObjectId) : string := id.

(** A [CarProduct] document (models/carModel.js); [None] is an absent
    ([undefined]) field. *)
Record Car : Type :=
  { _id : ObjectId;
    name : option string;
    brand : option string;
    modelYear : option Z;
    category : option string;
    description : option string;
    price : option Z;
    fuelType : option string;
    transmission : option string;
    engineCapacity : option string;
    mileage : option string;
    available : option bool }.

(** ** controllers/carController.js: the document builder *)

Module CarDoc.

Definition nl : string := String (ascii_of_N 10) "".

(** [${x}] for a string that may be [undefined]. *)
Definition interpolate (x : option string) : string := default "undefined" x.

(** [x || 'N/A'] for a number: [0] is falsy. *)
Definition numberOrElse (x : option Z) (b : string) : string :=
  match x with
  | Some n => if (n =? 0)%Z then b else pretty n
  | None => b
  end.

Record Document : Type :=
  { pageContent : string; metadata : gmap string JsVal }.

Definition transformCarToDocument (car : Car) : Document :=
  let content :=
    "Car: " ++ interpolate (name car) ++ nl ++
    "Brand: " ++ interpolate (brand car) ++ nl ++
    "Model Year: " ++ numberOrElse (modelYear car) "N/A" ++ nl ++
    "Category: " ++ Js.orElse (category car) "N/A" ++ nl ++
    "Description: " ++ Js.orElse (description car) "N/A" ++ nl ++
    "Price: " ++ match price car with
                  | Some p => if (p =? 0)%Z then "N/A" else "$" ++ pretty p
                  | None => "N/A"
                  end ++ nl ++
    "Fuel Type: " ++ Js.orElse (fuelType car) "N/A" ++ nl ++
    "Transmission: " ++ Js.orElse (transmission car) "N/A" ++ nl ++
    "Engine Capacity: " ++ Js.orElse (engineCapacity car) "N/A" ++ nl ++
    "Mileage: " ++ Js.orElse (mileage car) "N/A" in
  {| pageContent := content;
     metadata := object
       [("carId", Some (JStr (toString (_id car))));
        ("name", JStr <$> name car);
        ("brand", JStr <$> brand car);
        ("category", JStr <$> category car);
        ("price", JNum <$> price car);
        ("source", Some (JStr "car_database"))] |}.

End CarDoc.

(** ** listeners/vectorSync.js *)

Module VectorSync.

Definition TEXT_FIELDS : gset string :=
  {[ "name"; "brand"; "description"; "category"; "fuelType";
     "transmission"; "engineCapacity"; "mileage" ]}.

Definition DEBOUNCE_MS : Z := 3000.

(** The embedding is an ordered sequence of numbers; this code stores it
    and never looks at its components, which are kept as integers here. *)
Definition Embedding : Type := list Z.

(** A [CarVector] document (models/vectorModel.js), without the fields the
    database adds on its own ([_id], timestamps). *)
Record VectorRecord : Type :=
  { carId : ObjectId;
    text : string;
    embedding : Embedding;
    metadata : gmap string JsVal }.

Inductive OperationType : Type :=
| insert | update | replace | delete | otherOperation (kind : string).

#[global] Instance OperationType_eq_dec : EqDecision OperationType.
Proof. solve_decision. Defined.

Record UpdateDescription : Type := { updatedFields : gmap string JsVal }.

(** A change-stream event: [documentKey] is [change.documentKey._id];
    [fullDocument] is [None] when the lookup found no document. *)
Record ChangeEvent : Type :=
  { operationType : OperationType;
    documentKey : ObjectId;
    fullDocument : option Car;
    updateDescription : option UpdateDescription }.

Inductive TimerAction : Type :=
| DebouncedUpsert (carId : ObjectId)
| Rewatch.

Record Timer : Type := { fireAt : Z; action : TimerAction }.

Inductive Level : Type := LOG | ERROR.
Record LogLine : Type := { level : Level; line : string }.

(** The process state the listener reads and writes. *)
Record World : Type :=
  { carProducts : gmap ObjectId Car;       (* the CarProduct collection *)
    carVectors : list VectorRecord;        (* the CarVector collection *)
    debounceMap : gmap string nat;         (* carId -> timeoutId *)
    timers : gmap nat Timer;               (* pending setTimeout handles *)
    nextTimer : nat;
    subscriptions : nat;                   (* change streams opened so far *)
    embedCalls : list string;              (* texts sent to embedQuery *)
    console : list LogLine }.

(** What one callback meets outside the process: the clock, the embedding
    provider, and whether calls on the two collections resolve or reject. *)
Record Env : Type :=
  { now : Z;
    embedQueryResult : string -> Result Embedding;
    carVectorUp : bool;
    carProductUp : bool }.

Definition initial : World :=
  {| carProducts := ∅; carVectors := []; debounceMap := ∅; timers := ∅;
     nextTimer := 0%nat; subscriptions := 0%nat; embedCalls := [];
     console := [] |}.

Definition withCarVectors (f : list VectorRecord -> list VectorRecord)
    (w : World) : World :=
  {| carProducts := carProducts w; carVectors := f (carVectors w);
     debounceMap := debounceMap w; timers := timers w;
     nextTimer := nextTimer w; subscriptions := subscriptions w;
     embedCalls := embedCalls w; console := console w |}.

Definition withDebounceMap (f : gmap string nat -> gmap string nat)
    (w : World) : World :=
  {| carProducts := carProducts w; carVectors := carVectors w;
     debounceMap := f (debounceMap w); timers := timers w;
     nextTimer := nextTimer w; subscriptions := subscriptions w;
     embedCalls := embedCalls w; console := console w |}.

Definition withTimers (f : gmap nat Timer -> gmap nat Timer)
    (w : World) : World :=
  {| carProducts := carProducts w; carVectors := carVectors w;
     debounceMap := debounceMap w; timers := f (timers w);
     nextTimer := nextTimer w; subscriptions := subscriptions w;
     embedCalls := embedCalls w; console := console w |}.

Definition withNextTimer (n : nat) (w : World) : World :=
  {| carProducts := carProducts w; carVectors := carVectors w;
     debounceMap := debounceMap w; timers := timers w;
     nextTimer := n; subscriptions := subscriptions w;
     embedCalls := embedCalls w; console := console w |}.

Definition withSubscriptions (n : nat) (w : World) : World :=
  {| carProducts := carProducts w; carVectors := carVectors w;
     debounceMap := debounceMap w; timers := timers w;
     nextTimer := nextTimer w; subscriptions := n;
     embedCalls := embedCalls w; console := console w |}.

Definition withEmbedCalls (l : list string) (w : World) : World :=
  {| carProducts := carProducts w; carVectors := carVectors w;
     debounceMap := debounceMap w; timers := timers w;
     nextTimer := nextTimer w; subscriptions := subscriptions w;
     embedCalls := l; console := console w |}.

Definition withConsole (l : list LogLine) (w : World) : World :=
  {| carProducts := carProducts w; carVectors := carVectors w;
     debounceMap := debounceMap w; timers := timers w;
     nextTimer := nextTimer w; subscriptions := subscriptions w;
     embedCalls := embedCalls w; console := l |}.

(** *** Callbacks as state transformers that may throw *)

Definition M (A : Type) : Type := World -> Result A * World.

Definition ret {A} (a : A) : M A := λ w, (Ok a, w).

Definition bind {A B} (m : M A) (k : A -> M B) : M B :=
  λ w, match m w with
       | (Ok a, w') => k a w'
       | (Throw e, w') => (Throw e, w')
       end.

Definition throw {A} (e : string) : M A := λ w, (Throw e, w).

(** [try { body } catch (error) { handler }]. *)
Definition tryCatch {A} (body : M A) (handler : string -> M A) : M A :=
  λ w, match body w with
       | (Ok a, w') => (Ok a, w')
       | (Throw e, w') => handler e w'
       end.

(** [try { body } finally { fin }]: [fin] runs on both exits. *)
Definition tryFinally {A} (body : M A) (fin : M unit) : M A :=
  λ w, let '(r, w') := body w in
       match fin w' with
       | (Ok _, w'') => (r, w'')
       | (Throw e, w'') => (Throw e, w'')
       end.

Definition gets {A} (f : World -> A) : M A := λ w, (Ok (f w), w).
Definition modify (f : World -> World) : M unit := λ w, (Ok tt, f w).

Declare Scope js_scope.
Delimit Scope js_scope with js.
Notation "x <- m ;; k" := (bind m (λ x, k))
  (at level 100, m at next level, right associativity) : js_scope.
Notation "m ;; k" := (bind m (λ _, k))
  (at level 100, right associativity) : js_scope.
Local Open Scope js_scope.

Definition consoleLog (s : string) : M unit :=
  modify (λ w, withConsole (console w ++ [{| level := LOG; line := s |}])%list w).

Definition consoleError (s error : string) : M unit :=
  modify (λ w, withConsole
    (console w ++ [{| level := ERROR; line := s ++ " " ++ error |}])%list w).

(** [embeddings.embedQuery(text)]. *)
Definition embedQuery (env : Env) (text : string) : M Embedding :=
  modify (λ w, withEmbedCalls (embedCalls w ++ [text])%list w);;
  match embedQueryResult env text with
  | Ok v => ret v
  | Throw e => throw e
  end.

(** A call on the [CarVector] model rejects when the collection is
    unreachable. *)
Definition carVectorCall (env : Env)
    (f : list VectorRecord -> list VectorRecord) : M unit :=
  if carVectorUp env then modify (withCarVectors f)
  else throw "MongoError: CarVector operation failed".

(** Replace the first document the filter selects. *)
Fixpoint updateFirst (p : VectorRecord -> bool)
    (f : VectorRecord -> VectorRecord) (docs : list VectorRecord)
  : option (list VectorRecord) :=
  match docs with
  | [] => None
  | d :: rest =>
      if p d then Some (f d :: rest)
      else cons d <$> updateFirst p f rest
  end.

Fixpoint deleteFirst (p : VectorRecord -> bool) (docs : list VectorRecord)
  : list VectorRecord :=
  match docs with
  | [] => []
  | d :: rest => if p d then rest else d :: deleteFirst p rest
  end.

Definition hasCarId (id : ObjectId) (d : VectorRecord) : bool :=
  bool_decide (carId d = id).

(** [CarVector.findOneAndUpdate({ carId }, doc, { upsert: true, new: true })]:
    the four fields of [doc] are set on the first match; without a match
    [doc] is inserted. *)
Definition findOneAndUpdate_upsert (doc : VectorRecord)
    (docs : list VectorRecord) : list VectorRecord :=
  match updateFirst (hasCarId (carId doc)) (λ _, doc) docs with
  | Some docs' => docs'
  | None => (docs ++ [doc])%list
  end.

(** [$set] of one path below [metadata]; an [undefined] value sets nothing. *)
Definition setMetadata (key : string) (v : option JsVal) (d : VectorRecord)
  : VectorRecord :=
  match v with
  | Some v =>
      {| carId := carId d; text := text d; embedding := embedding d;
         metadata := <[key := v]> (metadata d) |}
  | None => d
  end.

(** [CarVector.findOneAndUpdate({ carId }, { $set: { "metadata.price": ..,
    "metadata.available": .. } }, { upsert: false })]. *)
Definition findOneAndUpdate_patch (id : ObjectId)
    (price available : option JsVal) (docs : list VectorRecord)
  : list VectorRecord :=
  default docs
    (updateFirst (hasCarId id)
       (λ d, setMetadata "available" available
               (setMetadata "price" price d)) docs).

(** [CarVector.findOneAndDelete({ carId })]. *)
Definition findOneAndDelete (id : ObjectId) (docs : list VectorRecord)
  : list VectorRecord :=
  deleteFirst (hasCarId id) docs.

(** How many documents of the collection point back to [id]. *)
Definition countFor (id : ObjectId) (docs : list VectorRecord) : nat :=
  length (filter (λ d, carId d = id) docs).

(** [CarProduct.findById(carId)]. *)
Definition findById (env : Env) (id : ObjectId) : M (option Car) :=
  if carProductUp env then gets (λ w, carProducts w !! id)
  else throw "MongoError: CarProduct.findById failed".

Definition setTimeout (env : Env) (callback : TimerAction) (delay : Z)
  : M nat :=
  id <- gets nextTimer;;
  modify (λ w, withNextTimer (S id)
    (withTimers <[id := {| fireAt := now env + delay; action := callback |}]>
       w));;
  ret id.

Definition clearTimeout (id : nat) : M unit :=
  modify (withTimers (base.delete id)).

(** The text of [upsertEmbeddingForCar], line 46. *)
Definition carText (car : Car) : string :=
  Js.trim
    (Js.orElse (name car) "" ++ " " ++ Js.orElse (brand car) "" ++ " " ++
     Js.orElse (category car) "" ++ " " ++
     Js.orElse (description car) "" ++ " " ++
     Js.orElse (fuelType car) "" ++ " " ++
     Js.orElse (transmission car) "" ++ " " ++
     Js.orElse (engineCapacity car) "" ++ " " ++
     Js.orElse (mileage car) "").

(** The document written by the upsert, lines 54-64. *)
Definition vectorDocument (car : Car) (text : string) (vector : Embedding)
  : VectorRecord :=
  {| carId := _id car;
     text := text;
     embedding := vector;
     metadata := object
       [("name", JStr <$> name car);
        ("brand", JStr <$> brand car);
        ("category", JStr <$> category car);
        ("price", JNum <$> price car);
        ("source", Some (JStr "car_database"))] |}.

(** [upsertEmbeddingForCar(car)]; reading [car._id] of [null] throws before
    the [try] block is entered. *)
Definition upsertEmbeddingForCar (env : Env) (car : option Car) : M unit :=
  match car with
  | None => throw "TypeError: Cannot read properties of null (reading '_id')"
  | Some car =>
      let carId := _id car in
      let text := carText car in
      tryCatch
        (vector <- embedQuery env text;;
         carVectorCall env
           (findOneAndUpdate_upsert (vectorDocument car text vector));;
         consoleLog ("Upserted embedding for car ID: " ++ toString carId))
        (λ error, consoleError "Error generating embedding:" error;; ret tt)
  end.

(** The callback given to [setTimeout] at lines 101-110. *)
Definition debouncedUpsert (env : Env) (carId : ObjectId) : M unit :=
  tryFinally
    (tryCatch
       (car <- findById env carId;;
        match car with
        | Some car => upsertEmbeddingForCar env (Some car)
        | None => ret tt
        end)
       (λ err, consoleError "Error in debounced upsert:" err))
    (modify (withDebounceMap (base.delete (toString carId)))).

(** The [try] block of the ["change"] listener, lines 83-131. *)
Definition handleChange (env : Env) (change : ChangeEvent) : M unit :=
  let op := operationType change in
  let carId := documentKey change in
  if bool_decide (op = insert) || bool_decide (op = update) then
    let fulldoc := fullDocument change in
    upsertEmbeddingForCar env fulldoc
  else if bool_decide (op = update) then
    let updatedFields : gmap string JsVal :=
      default ∅ (updatedFields <$> updateDescription change) in
    let touchedFields := (map_to_list updatedFields).*1 in
    let shouldReembed :=
      existsb (λ field, bool_decide (field ∈ TEXT_FIELDS)) touchedFields in
    if shouldReembed then
      pending <- gets (λ w, debounceMap w !! toString carId);;
      match pending with
      | Some t => clearTimeout t
      | None => ret tt
      end;;
      timeout <- setTimeout env (DebouncedUpsert carId) DEBOUNCE_MS;;
      modify (withDebounceMap <[toString carId := timeout]>)
    else
      consoleLog ("No relevant text fields updated for car ID: " ++
                  toString carId ++ ", skipping re-embedding.");;
      let updatedMeta_price := updatedFields !! "price" in
      let updatedMeta_available := updatedFields !! "available" in
      if bool_decide (is_Some updatedMeta_price)
         || bool_decide (is_Some updatedMeta_available)
      then carVectorCall env
             (findOneAndUpdate_patch carId updatedMeta_price
                updatedMeta_available)
      else ret tt
  else if bool_decide (op = delete) then
    carVectorCall env (findOneAndDelete carId);;
    consoleLog ("Deleted embedding for removed car ID: " ++ toString carId)
  else ret tt.

(** The listener of ["change"], lines 81-136. *)
Definition onChange (env : Env) (change : ChangeEvent) : M unit :=
  tryCatch (handleChange env change)
    (λ error, consoleError "Error processing change event:" error).

(** [watchCarChanges()]: logs and opens a change stream with both listeners
    attached. *)
Definition watchCarChanges : M unit :=
  consoleLog "Watching for changes in CarProduct collection...";;
  modify (λ w, withSubscriptions (S (subscriptions w)) w).

Definition RECONNECT_MS : Z := 5000.

(** The listener of ["error"], lines 137-140. *)
Definition onError (env : Env) (error : string) : M unit :=
  consoleError "Change stream error:" error;;
  _ <- setTimeout env Rewatch RECONNECT_MS;;
  ret tt.

(** A pending timer fires: it leaves the pending set and its callback
    runs.  The feed decides when; what follows holds for any firing time. *)
Definition fireTimer (env : Env) (id : nat) : M unit :=
  pending <- gets (λ w, timers w !! id);;
  match pending with
  | None => ret tt
  | Some t =>
      modify (withTimers (base.delete id));;
      match action t with
      | DebouncedUpsert carId => debouncedUpsert env carId
      | Rewatch => watchCarChanges
      end
  end.

(** What the event loop hands to the listener, one at a time. *)
Inductive Occurrence : Type :=
| Change (change : ChangeEvent)
| StreamError (error : string)
| TimerFires (id : nat).

Definition dispatch (env : Env) (o : Occurrence) : M unit :=
  match o with
  | Change change => onChange env change
  | StreamError error => onError env error
  | TimerFires id => fireTimer env id
  end.

(** The subscription loop: an exception that escapes a listener ends it. *)
Fixpoint run (feed : list (Env * Occurrence)) : M unit :=
  match feed with
  | [] => ret tt
  | (env, o) :: rest => dispatch env o;; run rest
  end.

End VectorSync.

(** ** Concrete requests, records and events used by the examples below *)

Module Scenario.

Definition storedAnswer : Rag.ResponseData :=
  {| Rag.query := "What Toyota do you have?";
     Rag.answer := "A Corolla at $20,000.";
     Rag.responseTime := "500ms";
     Rag.cached := false;
     Rag.sources := [];
     Rag.cacheHit := None |}.

(** An entry inserted at time 0, hence expiring at 180000. *)
Definition agedCache : SimpleCache.t Rag.ResponseData :=
  SimpleCache.set 0 "what toyota do you have?" storedAnswer Rag.ragCache.

(** A request arriving at 200000 whose generation call times out. *)
Definition timedOut : Rag.Env :=
  {| Rag.tLookup := 200000; Rag.tStore := 200000;
     Rag.compose := λ _, Throw "Request timed out." |}.

(** A request at 1000 answered after 500 ms. *)
Definition answered : Rag.Env :=
  {| Rag.tLookup := 1000; Rag.tStore := 1500;
     Rag.compose := λ _,
       Ok {| Rag.llmAnswer := "A Corolla at $20,000.";
             Rag.totalTime := 500; Rag.extracted := [] |} |}.

(** A request at 100000 with every external service down. *)
Definition offline : Rag.Env :=
  {| Rag.tLookup := 100000; Rag.tStore := 100000;
     Rag.compose := λ _, Throw "ECONNREFUSED" |}.

(** A catalogue record with the six optional text fields absent. *)
Definition car (id : ObjectId) (name brand : option string)
    (price : option Z) : Car :=
  {| _id := id; name := name; brand := brand; modelYear := None;
     category := None; description := None; price := price;
     fuelType := None; transmission := None; engineCapacity := None;
     mileage := None; available := Some true |}.

Definition corolla : Car := car "c1" (Some "Corolla") (Some "Toyota") (Some 20000).

(** A provider that answers every text, and one that is out of quota. *)
Definition provider (text : string) : Result VectorSync.Embedding :=
  Ok [Z.of_nat (String.length text)].

Definition online (t : Z) : VectorSync.Env :=
  {| VectorSync.now := t; VectorSync.embedQueryResult := provider;
     VectorSync.carVectorUp := true; VectorSync.carProductUp := true |}.

Definition overQuota (t : Z) : VectorSync.Env :=
  {| VectorSync.now := t;
     VectorSync.embedQueryResult := λ _, Throw "429 Too Many Requests";
     VectorSync.carVectorUp := true; VectorSync.carProductUp := true |}.

(** The insert event of [corolla]. *)
Definition inserted : VectorSync.ChangeEvent :=
  {| VectorSync.operationType := VectorSync.insert;
     VectorSync.documentKey := "c1";
     VectorSync.fullDocument := Some corolla;
     VectorSync.updateDescription := None |}.

(** An update of record c1 that sets its name. *)
Definition renamed (n : string) : VectorSync.ChangeEvent :=
  {| VectorSync.operationType := VectorSync.update;
     VectorSync.documentKey := "c1";
     VectorSync.fullDocument := Some (car "c1" (Some n) (Some "Toyota") (Some 20000));
     VectorSync.updateDescription :=
       Some {| VectorSync.updatedFields := {[ "name" := JStr n ]} |} |}.

(** An update of record c1 that sets only its price. *)
Definition repriced (p : Z) : VectorSync.ChangeEvent :=
  {| VectorSync.operationType := VectorSync.update;
     VectorSync.documentKey := "c1";
     VectorSync.fullDocument := Some (car "c1" (Some "Corolla") (Some "Toyota") (Some p));
     VectorSync.updateDescription :=
       Some {| VectorSync.updatedFields := {[ "price" := JNum p ]} |} |}.

(** An update whose document was removed before the lookup. *)
Definition orphaned : VectorSync.ChangeEvent :=
  {| VectorSync.operationType := VectorSync.update;
     VectorSync.documentKey := "c1";
     VectorSync.fullDocument := None;
     VectorSync.updateDescription :=
       Some {| VectorSync.updatedFields := {[ "name" := JStr "Yaris" ]} |} |}.

(** The index entry of c1 as an earlier embedding left it. *)
Definition indexedCorolla : VectorSync.VectorRecord :=
  {| VectorSync.carId := "c1";
     VectorSync.text := "Corolla Toyota";
     VectorSync.embedding := [7];
     VectorSync.metadata :=
       {[ "name" := JStr "Corolla"; "brand" := JStr "Toyota";
          "price" := JNum 20000; "source" := JStr "car_database" ]} |}.

(** A process whose index holds [indexedCorolla] and whose primary store
    holds the record under the name it has now. *)
Definition indexed (current : string) : VectorSync.World :=
  {| VectorSync.carProducts :=
       {[ "c1" := car "c1" (Some current) (Some "Toyota") (Some 20000) ]};
     VectorSync.carVectors := [indexedCorolla];
     VectorSync.debounceMap := ∅;
     VectorSync.timers := ∅;
     VectorSync.nextTimer := 0%nat;
     VectorSync.subscriptions := 1%nat;
     VectorSync.embedCalls := [];
     VectorSync.console := [] |}.

(** A process whose index holds two chunk documents of c1, as the bulk
    route stores them for a long description. *)
Definition chunked : VectorSync.World :=
  {| VectorSync.carProducts := {[ "c1" := corolla ]};
     VectorSync.carVectors :=
       [ {| VectorSync.carId := "c1"; VectorSync.text := "Car: Corolla";
            VectorSync.embedding := [1]; VectorSync.metadata := ∅ |};
         {| VectorSync.carId := "c1"; VectorSync.text := "Brand: Toyota";
            VectorSync.embedding := [2]; VectorSync.metadata := ∅ |} ];
     VectorSync.debounceMap := ∅;
     VectorSync.timers := ∅;
     VectorSync.nextTimer := 0%nat;
     VectorSync.subscriptions := 1%nat;
     VectorSync.embedCalls := [];
     VectorSync.console := [] |}.

(** A process with a debounce timer pending for c1. *)
Definition debouncing : VectorSync.World :=
  {| VectorSync.carProducts := {[ "c1" := corolla ]};
     VectorSync.carVectors := [indexedCorolla];
     VectorSync.debounceMap := {[ "c1" := 0%nat ]};
     VectorSync.timers :=
       {[ 0%nat := {| VectorSync.fireAt := 3000;
                      VectorSync.action := VectorSync.DebouncedUpsert "c1" |} ]};
     VectorSync.nextTimer := 1%nat;
     VectorSync.subscriptions := 1%nat;
     VectorSync.embedCalls := [];
     VectorSync.console := [] |}.

End Scenario.

(** ** controllers/ragController.js: context assembly and source cards *)

Module RagContext.

(** The [metadata] object of a search result: its own scalar properties
    and, under the property [metadata], the object stored with the vector
    record when there is one. *)
Record Meta : Type :=
  { own : gmap string JsVal;
    nested : option (gmap string JsVal) }.

(** A search result [r]; [metadata] is [None] when [r.metadata] is
    missing. *)
Record SearchResult : Type :=
  { pageContent : string; metadata : option Meta }.

(** Whether a value that may be [undefined] counts as true. *)
Definition truthy (v : option JsVal) : bool :=
  match v with
  | Some (JBool b) => b
  | Some (JNum n) => negb (n =? 0)
  | Some (JStr s) => negb (Js.isEmpty s)
  | Some JNull => false
  | None => false
  end.

(** [a || b]. *)
Definition orValue (a b : option JsVal) : option JsVal :=
  if truthy a then a else b.

(** [${v}]. *)
Definition show (v : option JsVal) : string :=
  match v with
  | Some (JBool true) => "true"
  | Some (JBool false) => "false"
  | Some (JNum n) => pretty n
  | Some (JStr s) => s
  | Some JNull => "null"
  | None => "undefined"
  end.

(** [meta.key || meta.metadata?.key] where [meta = r.metadata || {}]. *)
Definition field (r : SearchResult) (key : string) : option JsVal :=
  let meta := default {| own := ∅; nested := None |} (metadata r) in
  orValue (own meta !! key) (nested meta ≫= λ o, o !! key).

(** The callback of [results.map] at lines 672-684. *)
Definition contextPart (index : nat) (r : SearchResult) : string :=
  let price := field r "price" in
  let name := field r "name" in
  let contextText := pageContent r in
  let contextText :=
    if truthy price && truthy name
    then contextText ++ CarDoc.nl ++ "CURRENT PRICE: $" ++ show price
    else contextText in
  "[Car " ++ pretty (index + 1)%nat ++ "]" ++ CarDoc.nl ++ contextText.

(** [contextParts.join("\n\n---\n\n")], line 686. *)
Definition context (results : list SearchResult) : string :=
  Js.join (CarDoc.nl ++ CarDoc.nl ++ "---" ++ CarDoc.nl ++ CarDoc.nl)
    (imap contextPart results).

(** [s.startsWith(prefix)]. *)
Fixpoint startsWith (prefix s : string) : bool :=
  match prefix, s with
  | EmptyString, _ => true
  | String _ _, EmptyString => false
  | String a prefix, String b s => Ascii.eqb a b && startsWith prefix s
  end.

Fixpoint dropChars (n : nat) (s : string) : string :=
  match n, s with
  | O, _ => s
  | S n, String _ r => dropChars n r
  | S _, EmptyString => EmptyString
  end.

(** [s.replace(pattern, replacement)] with a string pattern: the first
    occurrence is replaced. *)
Fixpoint replace (pattern replacement s : string) : string :=
  if startsWith pattern s
  then replacement ++ dropChars (String.length pattern) s
  else match s with
       | EmptyString => EmptyString
       | String c r => String c (replace pattern replacement r)
       end.

(** The first line of [s] and the lines after it. *)
Fixpoint firstAndRest (s : string) : string * list string :=
  match s with
  | EmptyString => (EmptyString, [])
  | String c r =>
      let '(line, lines) := firstAndRest r in
      if Ascii.eqb c (ascii_of_N 10) then (EmptyString, line :: lines)
      else (String c line, lines)
  end.

(** [s.split('\n')]. *)
Definition splitLines (s : string) : list string :=
  let '(line, lines) := firstAndRest s in line :: lines.

(** [lines.find(line => line.startsWith(label))?.replace(label, '').trim()
    || fallback]. *)
Definition labelled (lines : list string) (label fallback : string) : string :=
  match List.find (startsWith label) lines with
  | Some line =>
      let value := Js.trim (replace label "" line) in
      if Js.isEmpty value then fallback else value
  | None => fallback
  end.

(** One element of [sources]. *)
Record SourceCard : Type :=
  { cardName : JsVal; cardBrand : JsVal; cardPrice : JsVal;
    cardCategory : JsVal }.

(** [v || fallback] with a string literal on the right. *)
Definition orText (v : option JsVal) (fallback : string) : JsVal :=
  match v with
  | Some x => if truthy v then x else JStr fallback
  | None => JStr fallback
  end.

(** The callback of [results.map] at lines 747-771. *)
Definition sourceOf (r : SearchResult) : SourceCard :=
  let name := field r "name" in
  let brand := field r "brand" in
  let price := field r "price" in
  let category := field r "category" in
  let '(name, brand, price, category) :=
    if negb (truthy name) && negb (Js.isEmpty (pageContent r)) then
      let lines := splitLines (pageContent r) in
      (Some (JStr (labelled lines "Car:" "Unknown")),
       Some (JStr (labelled lines "Brand:" "Unknown")),
       Some (JStr (labelled lines "Price:" "N/A")),
       Some (JStr (labelled lines "Category:" "Unknown")))
    else (name, brand, price, category) in
  {| cardName := orText name "Unknown";
     cardBrand := orText brand "Unknown";
     cardPrice := orText price "N/A";
     cardCategory := orText category "Unknown" |}.

(** A string without a line feed. *)
Fixpoint singleLine (s : string) : bool :=
  match s with
  | EmptyString => true
  | String c r => negb (Ascii.eqb c (ascii_of_N 10)) && singleLine r
  end.

(** A field that, when present, holds no line feed. *)
Definition optSingleLine (field : option string) : bool :=
  match field with
  | Some s => singleLine s
  | None => true
  end.

(** A string without any white space. *)
Fixpoint solid (s : string) : bool :=
  match s with
  | EmptyString => true
  | String c r => negb (Js.isWhiteSpace c) && solid r
  end.

End RagContext.

(** ** controllers/carController.js: the bulk route *)

Module CarController.

(** What one request meets outside the process: the outcome of
    [CarProduct.create], of the text splitter on one document (the texts of
    its chunks), of [embeddings.embedDocuments] and of [CarVector.create]. *)
Record Env : Type :=
  { createResult : Car -> Result Car;
    splitResult : CarDoc.Document -> Result (list string);
    embedDocumentsResult : list string -> Result (list VectorSync.Embedding);
    vectorCreateResult : VectorSync.VectorRecord -> Result unit }.

(** The two collections, and the objects handed to [CarProduct.create]. *)
Record World : Type :=
  { createCalls : list Car;
    carProducts : list Car;
    carVectors : list VectorSync.VectorRecord }.

(** One element of [processedDocs]; [embedding] is [vectors[index]]. *)
Record Processed : Type :=
  { document : CarDoc.Document;
    embedding : option VectorSync.Embedding;
    metadata : gmap string JsVal }.

(** One element of [errors]. *)
Record ErrorEntry : Type :=
  { errorIndex : option nat;
    errorCarId : option JsVal;
    error : string;
    errorCarData : option Car;
    stage : string }.

(** One element of [results]. *)
Record ResultEntry : Type :=
  { index : nat;
    car : option Car;
    embeddingChunks : nat }.

Inductive Body : Type :=
| NoData
| Summary (message : string) (totalProcessed successful failed : nat)
    (results : list ResultEntry) (errors : option (list ErrorEntry))
| Added (car : option Car) (embeddingChunks : nat)
| FailedToAdd (error stage : string).

Record Response : Type := { status : Z; body : Body }.

(** [req.body]: one object or an array of objects. *)
Inductive Request : Type :=
| One (carData : Car)
| Many (carDataArray : list Car).

(** [!x] for a string that may be missing. *)
Definition missing (x : option string) : bool := Js.isEmpty (Js.orElse x "").

(** The request objects that pass the check of lines 342-344. *)
Definition acceptable (carData : Car) : Prop :=
  missing (name carData) || missing (brand carData) = false.

(** Step 1, lines 337-360, from index [i] on. *)
Fixpoint createCars (env : Env) (i : nat) (carDataArray : list Car)
    (createdCars : list Car) (errors : list ErrorEntry) (w : World)
  : list Car * list ErrorEntry * World :=
  match carDataArray with
  | [] => (createdCars, errors, w)
  | carData :: rest =>
      let failed message :=
        (errors ++ [{| errorIndex := Some i; errorCarId := None;
                       error := message; errorCarData := Some carData;
                       stage := "car_creation" |}])%list in
      if missing (name carData) || missing (brand carData) then
        createCars env (S i) rest createdCars
          (failed "Name and brand are required fields") w
      else
        let w := {| createCalls := (createCalls w ++ [carData])%list;
                    carProducts := carProducts w;
                    carVectors := carVectors w |} in
        match createResult env carData with
        | Ok car =>
            createCars env (S i) rest (createdCars ++ [car])%list errors
              {| createCalls := createCalls w;
                 carProducts := (carProducts w ++ [car])%list;
                 carVectors := carVectors w |}
        | Throw message => createCars env (S i) rest createdCars (failed message) w
        end
  end.

(** The loop of [processCarDocuments] over the documents, lines 290-294. *)
Fixpoint splitAll (env : Env) (documents : list CarDoc.Document)
  : Result (list CarDoc.Document) :=
  match documents with
  | [] => Ok []
  | doc :: rest =>
      match splitResult env doc with
      | Ok chunks =>
          match splitAll env rest with
          | Ok splitDocs =>
              Ok (map (λ text, {| CarDoc.pageContent := text;
                                  CarDoc.metadata := CarDoc.metadata doc |})
                    chunks ++ splitDocs)%list
          | Throw message => Throw message
          end
      | Throw message => Throw message
      end
  end.

(** [processCarDocuments(cars)], lines 284-314. *)
Definition processCarDocuments (env : Env) (cars : list Car)
  : Result (list Processed) :=
  let rethrow message := Throw ("Pipeline processing failed: " ++ message) in
  let documents := map CarDoc.transformCarToDocument cars in
  match splitAll env documents with
  | Ok splitDocs =>
      let texts := map CarDoc.pageContent splitDocs in
      match embedDocumentsResult env texts with
      | Ok vectors =>
          Ok (imap (λ index doc,
                      {| document := doc;
                         embedding := vectors !! index;
                         metadata := CarDoc.metadata doc |}) splitDocs)
      | Throw message => rethrow message
      end
  | Throw message => rethrow message
  end.

(** [a.equals(b)] on the [carId] of two metadata objects. *)
Definition sameCar (a b : gmap string JsVal) : bool :=
  match a !! "carId", b !! "carId" with
  | Some (JStr x), Some (JStr y) => bool_decide (x = y)
  | _, _ => false
  end.

Definition idValue (car : Car) : gmap string JsVal :=
  {[ "carId" := JStr (toString (_id car)) ]}.

(** [createdCars.findIndex(car => car._id.equals(metadata.carId))]. *)
Fixpoint findIndex (metadata : gmap string JsVal) (cars : list Car)
  : option nat :=
  match cars with
  | [] => None
  | car :: rest =>
      if sameCar (idValue car) metadata then Some 0%nat
      else S <$> findIndex metadata rest
  end.

(** The document given to [CarVector.create], lines 373-378; a missing
    vector is stored as the empty array. *)
Definition vectorRecord (p : Processed) : VectorSync.VectorRecord :=
  {| VectorSync.carId :=
       match metadata p !! "carId" with
       | Some (JStr id) => id
       | _ => ""
       end;
     VectorSync.text := CarDoc.pageContent (document p);
     VectorSync.embedding := default [] (embedding p);
     VectorSync.metadata := metadata p |}.

(** Step 3, lines 369-400, over the documents still to be saved. *)
Fixpoint saveVectors (env : Env) (processedDocs todo : list Processed)
    (createdCars : list Car) (results : list ResultEntry)
    (errors : list ErrorEntry) (w : World)
  : list ResultEntry * list ErrorEntry * World :=
  match todo with
  | [] => (results, errors, w)
  | p :: rest =>
      match vectorCreateResult env (vectorRecord p) with
      | Ok _ =>
          let w := {| createCalls := createCalls w;
                      carProducts := carProducts w;
                      carVectors := (carVectors w ++ [vectorRecord p])%list |} in
          let results :=
            match findIndex (metadata p) createdCars with
            | Some carIndex =>
                (results ++
                 [{| index := carIndex;
                     car := createdCars !! carIndex;
                     embeddingChunks :=
                       length (filter (λ q, sameCar (metadata q) (metadata p) = true)
                                 processedDocs) |}])%list
            | None => results
            end in
          saveVectors env processedDocs rest createdCars results errors w
      | Throw message =>
          saveVectors env processedDocs rest createdCars results
            (errors ++ [{| errorIndex := None;
                           errorCarId := metadata p !! "carId";
                           error := message;
                           errorCarData := None;
                           stage := "vector_creation" |}])%list w
      end
  end.

(** Steps 2 and 3, lines 363-417. *)
Definition embedAndSave (env : Env) (createdCars : list Car)
    (errors : list ErrorEntry) (w : World)
  : list ResultEntry * list ErrorEntry * World :=
  if bool_decide (0 < length createdCars)%nat then
    match processCarDocuments env createdCars with
    | Ok processedDocs =>
        saveVectors env processedDocs processedDocs createdCars [] errors w
    | Throw message =>
        ([],
         (errors ++
          imap (λ index car,
                  {| errorIndex := Some index; errorCarId := None;
                     error := "Pipeline processing failed: " ++ message;
                     errorCarData := Some car;
                     stage := "pipeline_processing" |}) createdCars)%list,
         w)
    end
  else ([], errors, w).

(** Step 4, lines 420-450. *)
Definition respond (isArray : bool) (carDataArray : list Car)
    (results : list ResultEntry) (errors : list ErrorEntry) : Response :=
  if isArray then
    {| status := if bool_decide (0 < length errors)%nat then 207 else 201;
       body :=
         Summary
           ("LangChain pipeline processed " ++
            pretty (length carDataArray) ++ " cars. " ++
            pretty (length results) ++ " successful, " ++
            pretty (length errors) ++ " failed.")
           (length carDataArray) (length results) (length errors) results
           (if bool_decide (0 < length errors)%nat then Some errors
            else None) |}
  else
    match results with
    | first :: _ =>
        {| status := 201;
           body := Added (car first) (embeddingChunks first) |}
    | [] =>
        {| status := 400;
           body :=
             FailedToAdd
               (Js.orElse (error <$> head errors) "Unknown error")
               (Js.orElse (stage <$> head errors) "unknown") |}
    end.

(** [Array.isArray(requestData)] and [carDataArray], lines 321-322. *)
Definition isArray (request : Request) : bool :=
  match request with Many _ => true | One _ => false end.

Definition carDataArrayOf (request : Request) : list Car :=
  match request with Many l => l | One carData => [carData] end.

(** [addCarProduct(req, res)], lines 316-459. *)
Definition addCarProduct (env : Env) (request : Request) (w : World)
  : Response * World :=
  let carDataArray := carDataArrayOf request in
  if bool_decide (length carDataArray = 0%nat) then
    ({| status := 400; body := NoData |}, w)
  else
    let '(createdCars, errors, w) := createCars env 0 carDataArray [] [] w in
    let '(results, errors, w) := embedAndSave env createdCars errors w in
    (respond (isArray request) carDataArray results errors, w).

(** A store, splitter and provider that accept everything: the store keeps
    the object as it is, each document is one chunk, each text gets a vector. *)
Definition accepting : Env :=
  {| createResult := λ carData, Ok carData;
     splitResult := λ doc, Ok [CarDoc.pageContent doc];
     embedDocumentsResult := λ texts, Ok (map (λ _, [1]) texts);
     vectorCreateResult := λ _, Ok tt |}.

(** The same with the embedding provider out of quota. *)
Definition withoutProvider : Env :=
  {| createResult := λ carData, Ok carData;
     splitResult := λ doc, Ok [CarDoc.pageContent doc];
     embedDocumentsResult := λ _, Throw "429 Too Many Requests";
     vectorCreateResult := λ _, Ok tt |}.

(** A splitter that cuts every document in two. *)
Definition halving : Env :=
  {| createResult := λ carData, Ok carData;
     splitResult := λ doc, Ok [CarDoc.pageContent doc; CarDoc.pageContent doc];
     embedDocumentsResult := λ texts, Ok (map (λ _, [1]) texts);
     vectorCreateResult := λ _, Ok tt |}.

Definition empty : World :=
  {| createCalls := []; carProducts := []; carVectors := [] |}.

End CarController.

(** ** utils/mongoPool.js *)

Module MongoPool.

(** The singleton.  [client] is the [MongoClient] held ([None] is [null]);
    clients are numbered in the order [new MongoClient] made them, so
    [constructed] is also the number of the next one.  [connectCalls] and
    [closeCalls] list the clients whose [connect()] and [close()] were
    called. *)
Record t : Type :=
  { client : option nat;
    isConnected : bool;
    constructed : nat;
    connectCalls : list nat;
    closeCalls : list nat;
    console : list string }.

(** [new MongoPool()]. *)
Definition new : t :=
  {| client := None; isConnected := false; constructed := 0%nat;
     connectCalls := []; closeCalls := []; console := [] |}.

(** Whether [connect()] and [close()] resolve or reject during one call. *)
Record Env : Type :=
  { connectResult : Result unit;
    closeResult : Result unit }.

(** [getClient()]; the result is [this.client]. *)
Definition getClient (env : Env) (pool : t) : Result (option nat) * t :=
  if negb (bool_decide (is_Some (client pool))) || negb (isConnected pool) then
    let c := constructed pool in
    let pool :=
      {| client := Some c; isConnected := isConnected pool;
         constructed := S c;
         connectCalls := (connectCalls pool ++ [c])%list;
         closeCalls := closeCalls pool; console := console pool |} in
    match connectResult env with
    | Ok _ =>
        let pool :=
          {| client := client pool; isConnected := true;
             constructed := constructed pool;
             connectCalls := connectCalls pool;
             closeCalls := closeCalls pool;
             console := (console pool ++
                         ["📦 MongoDB connection pool initialized"])%list |} in
        (Ok (client pool), pool)
    | Throw error =>
        (Throw error,
         {| client := client pool; isConnected := isConnected pool;
            constructed := constructed pool;
            connectCalls := connectCalls pool;
            closeCalls := closeCalls pool;
            console :=
              (console pool ++
               [("Failed to connect to MongoDB pool: " ++ error)%string])%list |})
    end
  else (Ok (client pool), pool).

(** [closePool()]. *)
Definition closePool (env : Env) (pool : t) : Result unit * t :=
  match client pool with
  | Some c =>
      if isConnected pool then
        let pool :=
          {| client := client pool; isConnected := isConnected pool;
             constructed := constructed pool;
             connectCalls := connectCalls pool;
             closeCalls := (closeCalls pool ++ [c])%list;
             console := console pool |} in
        match closeResult env with
        | Ok _ =>
            (Ok tt,
             {| client := client pool; isConnected := false;
                constructed := constructed pool;
                connectCalls := connectCalls pool;
                closeCalls := closeCalls pool;
                console := (console pool ++
                            ["📦 MongoDB connection pool closed"])%list |})
        | Throw error => (Throw error, pool)
        end
      else (Ok tt, pool)
  | None => (Ok tt, pool)
  end.

(** Calls made on the singleton, one after the other. *)
Inductive Call : Type := GetClient | ClosePool.

Definition call (env : Env) (c : Call) (pool : t) : t :=
  match c with
  | GetClient => (getClient env pool).2
  | ClosePool => (closePool env pool).2
  end.

Definition calls (history : list (Env * Call)) (pool : t) : t :=
  foldl (λ pool ec, call ec.1 ec.2 pool) pool history.

(** The pool is consistent: connected only with a client, the client is one
    that was constructed, and every constructed client had [connect()] called
    on it once, in order. *)
Definition consistent (pool : t) : Prop :=
  (isConnected pool = true → is_Some (client pool))
  ∧ (∀ c, client pool = Some c → (c < constructed pool)%nat)
  ∧ connectCalls pool = seq 0 (constructed pool).

Definition up : Env := {| connectResult := Ok tt; closeResult := Ok tt |}.
Definition down : Env :=
  {| connectResult := Throw "MongoServerSelectionError";
     closeResult := Ok tt |}.
Definition failing : Env :=
  {| connectResult := Ok tt; closeResult := Throw "MongoNetworkError" |}.

End MongoPool.

(** ** Notions the further properties are stated with *)

Module Derived.

(** Requests served one after the other against the shared cache. *)
Fixpoint serve (requests : list (Rag.Env * option string))
    (cache : SimpleCache.t Rag.ResponseData)
  : list Rag.Response * SimpleCache.t Rag.ResponseData :=
  match requests with
  | [] => ([], cache)
  | (env, q) :: rest =>
      let '(response, cache) := Rag.askCarAssistant env q cache in
      let '(responses, cache) := serve rest cache in
      (response :: responses, cache)
  end.

(** Every stored answer is the object built at [const responseData]:
    [cached] is [false] and [cacheHit] is absent. *)
Definition storedFresh (cache : SimpleCache.t Rag.ResponseData) : Prop :=
  ∀ key item,
    SimpleCache.cache cache !! key = Some item →
    Rag.cached (SimpleCache.value item) = false
    ∧ Rag.cacheHit (SimpleCache.value item) = None.

(** Every key is a non-empty string that normalisation leaves alone. *)
Definition keysNormalized (cache : SimpleCache.t Rag.ResponseData) : Prop :=
  ∀ key item,
    SimpleCache.cache cache !! key = Some item →
    Rag.cacheKey key = key ∧ key ≠ "".

(** Every pending timer has a handle below the next one to be issued. *)
Definition timersFresh (w : VectorSync.World) : Prop :=
  ∀ id t, VectorSync.timers w !! id = Some t → (id < VectorSync.nextTimer w)%nat.

(** Whether the listener sends the event's document to the provider. *)
Definition embeds (change : VectorSync.ChangeEvent) : bool :=
  (bool_decide (VectorSync.operationType change = VectorSync.insert)
   || bool_decide (VectorSync.operationType change = VectorSync.update))
  && bool_decide (is_Some (VectorSync.fullDocument change)).

(** A string made of white space only (the empty string included). *)
Fixpoint allWhiteSpace (s : string) : bool :=
  match s with
  | EmptyString => true
  | String c r => Js.isWhiteSpace c && allWhiteSpace r
  end.

(** A feed made of change events only. *)
Definition asChanges (feed : list (VectorSync.Env * VectorSync.ChangeEvent))
  : list (VectorSync.Env * VectorSync.Occurrence) :=
  map (λ ec, (ec.1, VectorSync.Change ec.2)) feed.

(** The documents of a collection that point back to [id]. *)
Definition recordsOf (id : ObjectId) (docs : list VectorSync.VectorRecord)
  : list VectorSync.VectorRecord :=
  filter (λ d, VectorSync.carId d = id) docs.

End Derived.

(** ** Further concrete events *)

Module Cases.

(** The delete event of record c1. *)
Definition removed : VectorSync.ChangeEvent :=
  {| VectorSync.operationType := VectorSync.delete;
     VectorSync.documentKey := "c1";
     VectorSync.fullDocument := None;
     VectorSync.updateDescription := None |}.


(** The insert event of a second record. *)
Definition insertedCivic : VectorSync.ChangeEvent :=
  {| VectorSync.operationType := VectorSync.insert;
     VectorSync.documentKey := "c2";
     VectorSync.fullDocument :=
       Some (Scenario.car "c2" (Some "Civic") (Some "Honda") (Some 22000));
     VectorSync.updateDescription := None |}.

(** The own properties of a search result for c1. *)
Definition ownFields : gmap string JsVal := {[ "carId" := JStr "c1" ]}.

(** A search result whose metadata has a price but no name. *)
Definition nameless : RagContext.SearchResult :=
  {| RagContext.pageContent := "Corolla Toyota";
     RagContext.metadata :=
       Some {| RagContext.own := {[ "price" := JNum 20000 ]};
               RagContext.nested := None |} |}.

End Cases.

(** * Properties *)

(** ** Strings *)

Section JsFacts.
Import Js.

Lemma isWhiteSpace_lowerChar c : isWhiteSpace (lowerChar c) = isWhiteSpace c.
Proof. destruct c as [[] [] [] [] [] [] [] []]; reflexivity. Qed.

Lemma isEmpty_toLowerCase s : isEmpty (toLowerCase s) = isEmpty s.
Proof. by destruct s. Qed.

Lemma isEmpty_true s : isEmpty s = true ↔ s = "".
Proof. destruct s; naive_solver. Qed.

Lemma isEmpty_length s : (String.length s =? 0)%nat = isEmpty s.
Proof. by destruct s. Qed.

Lemma trimStart_toLowerCase s :
  trimStart (toLowerCase s) = toLowerCase (trimStart s).
Proof.
  induction s as [|c r IH]; simpl; [done|].
  rewrite isWhiteSpace_lowerChar. by destruct (isWhiteSpace c).
Qed.

Lemma trimEnd_toLowerCase s :
  trimEnd (toLowerCase s) = toLowerCase (trimEnd s).
Proof.
  induction s as [|c r IH]; simpl; [done|].
  rewrite IH, isEmpty_toLowerCase, isWhiteSpace_lowerChar.
  by destruct (isEmpty (trimEnd r) && isWhiteSpace c).
Qed.

Lemma trim_toLowerCase s : trim (toLowerCase s) = toLowerCase (trim s).
Proof. unfold trim. by rewrite trimStart_toLowerCase, trimEnd_toLowerCase. Qed.

(** The request is rejected as blank exactly when its cache key is empty. *)
Lemma blank_iff_empty_key q :
  isEmpty q || (String.length (trim q) =? 0)%nat = isEmpty (Rag.cacheKey q).
Proof.
  unfold Rag.cacheKey.
  rewrite trim_toLowerCase, isEmpty_toLowerCase, isEmpty_length.
  by destruct q.
Qed.
End JsFacts.

(** ** The cache *)

Section CacheFacts.
Context {V : Type}.
Implicit Types (c : SimpleCache.t V) (key : string) (item : SimpleCache.Item V).
Import SimpleCache.

Lemma get_ttl now key c : ttl (get now key c).2 = ttl c.
Proof.
  unfold get. destruct (cache c !! key) as [item|]; [|done].
  by destruct (now >? expiresAt item).
Qed.

Lemma get_live now key c item :
  cache c !! key = Some item → now ≤ expiresAt item →
  get now key c = (Some (value item), c).
Proof.
  intros Hl Ht. unfold get. rewrite Hl.
  destruct (Z.gtb_spec now (expiresAt item)); [lia|done].
Qed.

Lemma get_expired now key c item :
  cache c !! key = Some item → expiresAt item < now →
  get now key c = (None, {| cache := delete key (cache c); ttl := ttl c |}).
Proof.
  intros Hl Ht. unfold get. rewrite Hl.
  destruct (Z.gtb_spec now (expiresAt item)); [done|lia].
Qed.

(** A lookup adds and alters nothing: what it leaves is part of what it
    found. *)
Lemma get_subseteq now key c : cache (get now key c).2 ⊆ cache c.
Proof.
  unfold get. destruct (cache c !! key) as [item|]; [|done].
  destruct (now >? expiresAt item); [apply delete_subseteq|done].
Qed.

(** A lookup of any key leaves an entry that has not yet expired. *)
Lemma get_keeps_live now key' key c item :
  cache c !! key = Some item → (key ≠ key' ∨ now ≤ expiresAt item) →
  cache (get now key' c).2 !! key = Some item.
Proof.
  intros Hl Hcase. unfold get.
  destruct (cache c !! key') as [item'|] eqn:Hl'; [|done].
  destruct (Z.gtb_spec now (expiresAt item')) as [Hgt|Hle]; [|done].
  simpl. rewrite lookup_delete_ne; [done|].
  intros ->. destruct Hcase as [?|?]; [done|]. simplify_eq. lia.
Qed.

(** After a lookup that reports absence the key holds no entry. *)
Lemma get_None_absent now key c :
  (get now key c).1 = None → cache (get now key c).2 !! key = None.
Proof.
  unfold get. destruct (cache c !! key) as [item|] eqn:Hl; [|done].
  destruct (now >? expiresAt item); [|done].
  intros _. apply lookup_delete_eq.
Qed.

(** A lookup that finds a value found a live entry and changed nothing. *)
Lemma get_Some_inv now key c v :
  (get now key c).1 = Some v →
  ∃ item, cache c !! key = Some item ∧ value item = v
          ∧ now ≤ expiresAt item ∧ (get now key c).2 = c.
Proof.
  unfold get. destruct (cache c !! key) as [item|]; [|done].
  destruct (Z.gtb_spec now (expiresAt item)); [done|].
  intros [= <-]. by exists item.
Qed.

Lemma cleanup_ttl now c : ttl (cleanup now c) = ttl c.
Proof. done. Qed.

(** A sweep leaves an entry that has not yet expired. *)
Lemma cleanup_keeps_live now key c item :
  cache c !! key = Some item → now ≤ expiresAt item →
  cache (cleanup now c) !! key = Some item.
Proof.
  intros Hl Ht. unfold cleanup; simpl.
  apply map_lookup_filter_Some_2; [done|]. simpl. lia.
Qed.

Lemma sweeps_ttl (sweeps : list Z) c :
  ttl (foldl (λ c t, cleanup t c) c sweeps) = ttl c.
Proof. revert c. induction sweeps as [|t l IH]; intros c; simpl; [done|]. by rewrite IH. Qed.

Lemma sweeps_keep_live (sweeps : list Z) key c item :
  cache c !! key = Some item →
  Forall (λ t, t ≤ expiresAt item) sweeps →
  cache (foldl (λ c t, cleanup t c) c sweeps) !! key = Some item.
Proof.
  revert c. induction sweeps as [|t l IH]; intros c Hl Hall; simpl; [done|].
  inversion Hall; subst. apply IH; [|done]. by apply cleanup_keeps_live.
Qed.
End CacheFacts.

(** C6: [get] after [set] returns the stored value as long as the time
    elapsed since the insertion is at most the TTL; once more than the TTL
    has elapsed [get] answers absent and removes the entry without any sweep;
    the expiry is the insertion time plus the TTL and a read in between does
    not move it. *)
Theorem cache_get_after_set {V : Type} (c : SimpleCache.t V) (key : string)
    (v : V) (t0 tin tout : Z) :
  tin - t0 ≤ SimpleCache.ttl c →
  SimpleCache.ttl c < tout - t0 →
  let c1 := SimpleCache.set t0 key v c in
  SimpleCache.cache c1 !! key
    = Some {| SimpleCache.value := v;
              SimpleCache.expiresAt := t0 + SimpleCache.ttl c |}
  ∧ SimpleCache.get tin key c1 = (Some v, c1)
  ∧ (SimpleCache.get tout key c1).1 = None
  ∧ SimpleCache.cache (SimpleCache.get tout key c1).2 !! key = None
  ∧ SimpleCache.get tout key (SimpleCache.get tin key c1).2
    = SimpleCache.get tout key c1.
Proof.
  intros Hin Hout c1.
  assert (Hl : SimpleCache.cache c1 !! key
    = Some {| SimpleCache.value := v;
              SimpleCache.expiresAt := t0 + SimpleCache.ttl c |})
    by apply lookup_insert_eq.
  assert (Hlive : SimpleCache.get tin key c1 = (Some v, c1)).
  { rewrite (get_live _ _ _ _ Hl); [done|simpl; lia]. }
  assert (Hdead := get_expired tout _ _ _ Hl ltac:(simpl; lia)).
  repeat split; [done|done| | |].
  - by rewrite Hdead.
  - rewrite Hdead. apply lookup_delete_eq.
  - by rewrite Hlive.
Qed.

Lemma cache_get_after_set_witness :
  let c1 := SimpleCache.set 1000 "k" 7%nat (SimpleCache.new Rag.ragCacheTtl) in
  SimpleCache.get 181000 "k" c1 = (Some 7%nat, c1)
  ∧ (SimpleCache.get 181001 "k" c1).1 = None.
Proof.
  destruct (cache_get_after_set (SimpleCache.new Rag.ragCacheTtl) "k" 7%nat
              1000 181000 181001) as (_ & Hin & Hout & _).
  - vm_compute. discriminate.
  - reflexivity.
  - exact (conj Hin Hout).
Defined.

(** ** The answer path and its cache *)

Section RagFacts.
Import Rag.

(** The three ways a well-formed request can end. *)
Lemma askCarAssistant_cases env q cache :
  Js.isEmpty (cacheKey q) = false →
  let looked := SimpleCache.get (tLookup env) (cacheKey q) cache in
  askCarAssistant env (Some q) cache =
    match looked.1 with
    | Some stored => ({| status := 200; body := Answer (asHit stored) |}, looked.2)
    | None =>
        match compose env q with
        | Ok r =>
            let responseData :=
              {| query := q; answer := llmAnswer r;
                 responseTime := pretty (totalTime r) ++ "ms";
                 cached := false; sources := extracted r;
                 cacheHit := None |} in
            ({| status := 200; body := Answer responseData |},
             SimpleCache.set (tStore env) (cacheKey q) responseData looked.2)
        | Throw error =>
            ({| status := 500;
                body := Failure "Failed to generate RAG response" error |},
             looked.2)
        end
    end.
Proof.
  intros Hkey looked. unfold askCarAssistant.
  rewrite blank_iff_empty_key, Hkey. subst looked.
  destruct (SimpleCache.get (tLookup env) (cacheKey q) cache) as [[stored|] c'];
    simpl; [done|].
  by destruct (compose env q).
Qed.

Lemma askCarAssistant_blank env q cache :
  Js.isEmpty (cacheKey q) = true →
  askCarAssistant env (Some q) cache =
    ({| status := 400; body := Message "Please provide a question." |}, cache).
Proof.
  intros Hkey. unfold askCarAssistant. by rewrite blank_iff_empty_key, Hkey.
Qed.
End RagFacts.

(** C7: two queries with the same case-folded, trimmed form use one cache
    entry.  Once the first has been answered, the cache holds an entry under
    the common key whose value is that answer (stored at answer time with
    expiry store time + TTL when the answer is fresh); a second query looked
    up no later than that expiry, with any sweeps in between, is a cache hit
    that returns the stored answer and leaves the cache as it is. *)
Theorem normalized_queries_share_entry (env1 env2 : Rag.Env) (q1 q2 : string)
    (cache0 : SimpleCache.t Rag.ResponseData) (r : Rag.ResponseData)
    (sweeps : list Z) :
  Js.trim (Js.toLowerCase q1) = Js.trim (Js.toLowerCase q2) →
  (Rag.askCarAssistant env1 (Some q1) cache0).1
    = {| Rag.status := 200; Rag.body := Rag.Answer r |} →
  ∃ item,
    SimpleCache.cache (Rag.askCarAssistant env1 (Some q1) cache0).2
      !! Rag.cacheKey q2 = Some item
    ∧ Rag.asHit (SimpleCache.value item) = Rag.asHit r
    ∧ (Rag.cached r = false →
       SimpleCache.value item = r
       ∧ SimpleCache.expiresAt item = Rag.tStore env1 + SimpleCache.ttl cache0)
    ∧ (Forall (λ t, t ≤ SimpleCache.expiresAt item) sweeps →
       Rag.tLookup env2 ≤ SimpleCache.expiresAt item →
       let cache1 :=
         foldl (λ c t, SimpleCache.cleanup t c)
           (Rag.askCarAssistant env1 (Some q1) cache0).2 sweeps in
       Rag.askCarAssistant env2 (Some q2) cache1
       = ({| Rag.status := 200; Rag.body := Rag.Answer (Rag.asHit r) |},
          cache1)).
Proof.
  intros Hkey Hfirst.
  fold (Rag.cacheKey q1) in Hkey. fold (Rag.cacheKey q2) in Hkey.
  destruct (Js.isEmpty (Rag.cacheKey q1)) eqn:Hvalid.
  { rewrite askCarAssistant_blank in Hfirst by done. discriminate. }
  assert (Hstored : ∃ item,
    SimpleCache.cache (Rag.askCarAssistant env1 (Some q1) cache0).2
      !! Rag.cacheKey q2 = Some item
    ∧ Rag.asHit (SimpleCache.value item) = Rag.asHit r
    ∧ (Rag.cached r = false →
       SimpleCache.value item = r
       ∧ SimpleCache.expiresAt item = Rag.tStore env1 + SimpleCache.ttl cache0)).
  { rewrite (askCarAssistant_cases env1 q1) in Hfirst |- * by done.
    cbv zeta in Hfirst |- *. rewrite <- Hkey.
    pose proof (get_ttl (Rag.tLookup env1) (Rag.cacheKey q1) cache0) as Httl.
    pose proof (get_Some_inv (Rag.tLookup env1) (Rag.cacheKey q1) cache0) as Hinv.
    destruct (SimpleCache.get (Rag.tLookup env1) (Rag.cacheKey q1) cache0)
      as [[stored|] c'] eqn:Hget; cbn [fst snd] in Hfirst, Httl, Hinv |- *.
    - injection Hfirst as <-.
      destruct (Hinv stored eq_refl) as (item & Hl & <- & _ & ->).
      exists item. split; [done|]. split; [done|]. discriminate.
    - destruct (Rag.compose env1 q1) as [composed|error];
        cbn [fst snd] in Hfirst |- *; [|discriminate].
      injection Hfirst as Hr. eexists. split; [apply lookup_insert_eq|].
      cbn [SimpleCache.value SimpleCache.expiresAt].
      rewrite Hr, Httl. done. }
  destruct Hstored as (item & Hl & Hvalue & Hfresh).
  exists item. split; [done|]. split; [done|]. split; [done|].
  intros Hsweeps Hin cache1. subst cache1.
  rewrite (askCarAssistant_cases env2 q2) by (by rewrite <- Hkey).
  cbv zeta.
  rewrite (get_live _ _ _ item); [|by apply sweeps_keep_live|done].
  cbn [fst snd]. by rewrite Hvalue.
Qed.

Lemma normalized_queries_share_entry_witness :
  (Rag.askCarAssistant Scenario.offline (Some "What TOYOTA do you have?")
     (Rag.askCarAssistant Scenario.answered (Some "  what Toyota do you have?  ")
        Rag.ragCache).2).1
  = {| Rag.status := 200;
       Rag.body := Rag.Answer
         {| Rag.query := "  what Toyota do you have?  ";
            Rag.answer := "A Corolla at $20,000.";
            Rag.responseTime := "500ms";
            Rag.cached := true;
            Rag.sources := [];
            Rag.cacheHit := Some true |} |}.
Proof.
  destruct (normalized_queries_share_entry Scenario.answered
             Scenario.offline
             "  what Toyota do you have?  " "What TOYOTA do you have?"
             Rag.ragCache
             {| Rag.query := "  what Toyota do you have?  ";
                Rag.answer := "A Corolla at $20,000.";
                Rag.responseTime := "500ms";
                Rag.cached := false;
                Rag.sources := [];
                Rag.cacheHit := None |} []
             ltac:(reflexivity) ltac:(vm_compute; reflexivity))
    as (item & _ & _ & Hfresh & Hhit).
  destruct (Hfresh eq_refl) as [_ Hexpiry].
  assert (Hsecond := Hhit ltac:(constructor)
    ltac:(rewrite Hexpiry; vm_compute; discriminate)).
  exact (f_equal fst Hsecond).
Defined.

(** C8, as stated, fails: a request whose generation call times out is
    answered with a server error, yet the cache is not what it was, because
    the cache check has already removed the expired entry under the key. *)
Lemma failure_leaves_cache_unchanged_counterexample :
  let outcome :=
    Rag.askCarAssistant Scenario.timedOut (Some "What Toyota do you have?")
      Scenario.agedCache in
  Rag.status outcome.1 = 500 ∧ outcome.2 ≠ Scenario.agedCache.
Proof.
  split; [reflexivity|].
  intros Heq.
  apply (f_equal (λ c, SimpleCache.cache c !! "what toyota do you have?")) in Heq.
  vm_compute in Heq. discriminate.
Qed.

(** C8, amended: when a step after the cache check fails, the caller gets a
    server error carrying the failure and nothing is stored: the cache is the
    one the cache check left, which adds and alters no entry, keeps every
    entry under another key and every entry that has not expired, and holds
    nothing under the query's key; it is the cache from before the request
    whenever that held no entry under the key. *)
Theorem failure_stores_nothing (env : Rag.Env) (q error : string)
    (cache : SimpleCache.t Rag.ResponseData) :
  Js.isEmpty q || (String.length (Js.trim q) =? 0)%nat = false →
  (SimpleCache.get (Rag.tLookup env) (Rag.cacheKey q) cache).1 = None →
  Rag.compose env q = Throw error →
  let outcome := Rag.askCarAssistant env (Some q) cache in
  outcome.1 = {| Rag.status := 500;
                 Rag.body := Rag.Failure "Failed to generate RAG response" error |}
  ∧ outcome.2 = (SimpleCache.get (Rag.tLookup env) (Rag.cacheKey q) cache).2
  ∧ SimpleCache.ttl outcome.2 = SimpleCache.ttl cache
  ∧ SimpleCache.cache outcome.2 ⊆ SimpleCache.cache cache
  ∧ (∀ key item,
       SimpleCache.cache cache !! key = Some item →
       key ≠ Rag.cacheKey q ∨ Rag.tLookup env ≤ SimpleCache.expiresAt item →
       SimpleCache.cache outcome.2 !! key = Some item)
  ∧ SimpleCache.cache outcome.2 !! Rag.cacheKey q = None
  ∧ (SimpleCache.cache cache !! Rag.cacheKey q = None → outcome.2 = cache).
Proof.
  intros Hvalid Hmiss Hfail outcome. subst outcome.
  rewrite blank_iff_empty_key in Hvalid.
  rewrite askCarAssistant_cases by done. cbv zeta.
  rewrite Hmiss, Hfail. cbn [fst snd].
  repeat split.
  - apply get_ttl.
  - apply get_subseteq.
  - intros key item Hl Hcase. by apply get_keeps_live.
  - by apply get_None_absent.
  - intros Hl. unfold SimpleCache.get. by rewrite Hl.
Qed.

Lemma failure_stores_nothing_witness :
  let outcome :=
    Rag.askCarAssistant Scenario.timedOut (Some "What Toyota do you have?")
      Scenario.agedCache in
  outcome.1 = {| Rag.status := 500;
                 Rag.body := Rag.Failure "Failed to generate RAG response"
                               "Request timed out." |}
  ∧ SimpleCache.cache outcome.2 ⊆ SimpleCache.cache Scenario.agedCache.
Proof.
  destruct (failure_stores_nothing Scenario.timedOut "What Toyota do you have?"
              "Request timed out." Scenario.agedCache
              ltac:(reflexivity) ltac:(reflexivity) ltac:(reflexivity))
    as (Hresp & _ & _ & Hsub & _).
  exact (conj Hresp Hsub).
Defined.

(** ** The change-stream listener *)

Section SyncFacts.
Import VectorSync.
Local Open Scope js_scope.

Implicit Types (env : Env) (w : World) (car : Car) (docs : list VectorRecord).

(** What one call of [upsertEmbeddingForCar] on a record does. *)
Lemma upsertEmbeddingForCar_run env car w :
  upsertEmbeddingForCar env (Some car) w =
    let text := carText car in
    let w1 := withEmbedCalls (embedCalls w ++ [text])%list w in
    let failed error :=
      (Ok tt, withConsole
         (console w1 ++ [{| level := ERROR;
               line := "Error generating embedding:" ++ " " ++ error |}])%list w1) in
    match embedQueryResult env text with
    | Ok vector =>
        if carVectorUp env then
          let w2 := withCarVectors
            (findOneAndUpdate_upsert (vectorDocument car text vector)) w1 in
          (Ok tt, withConsole
             (console w2 ++ [{| level := LOG;
                   line := "Upserted embedding for car ID: " ++ toString (_id car) |}])%list w2)
        else failed "MongoError: CarVector operation failed"
    | Throw error => failed error
    end.
Proof.
  unfold upsertEmbeddingForCar, tryCatch, bind, embedQuery, carVectorCall,
    consoleLog, consoleError, modify, ret, throw, bind.
  cbv zeta. destruct (embedQueryResult env (carText car)); [|done].
  by destruct (carVectorUp env).
Qed.

(** The first branch of the listener takes every insert and every
    update. *)
Lemma handleChange_insert_or_update env change :
  operationType change = insert ∨ operationType change = update →
  handleChange env change = upsertEmbeddingForCar env (fullDocument change).
Proof. unfold handleChange. by intros [-> | ->]. Qed.

Lemma onChange_ok env change w : (onChange env change w).1 = Ok tt.
Proof.
  unfold onChange, tryCatch.
  by destruct (handleChange env change w) as [[[]|e] w'].
Qed.

Lemma upsertEmbeddingForCar_ok env car w :
  (upsertEmbeddingForCar env (Some car) w).1 = Ok tt.
Proof.
  rewrite upsertEmbeddingForCar_run. cbv zeta.
  destruct (embedQueryResult env (carText car)); [|done].
  by destruct (carVectorUp env).
Qed.

(** The index after the listener has handled an insert or an update. *)
Lemma onChange_upsert_vectors env change w :
  operationType change = insert ∨ operationType change = update →
  carVectors (onChange env change w).2 =
    match fullDocument change with
    | Some car =>
        match embedQueryResult env (carText car) with
        | Ok vector =>
            if carVectorUp env
            then findOneAndUpdate_upsert
                   (vectorDocument car (carText car) vector) (carVectors w)
            else carVectors w
        | Throw _ => carVectors w
        end
    | None => carVectors w
    end.
Proof.
  intros Hop. unfold onChange, tryCatch.
  rewrite handleChange_insert_or_update by done.
  destruct (fullDocument change) as [car|]; [|done].
  rewrite upsertEmbeddingForCar_run. cbv zeta.
  destruct (embedQueryResult env (carText car)); [|done].
  by destruct (carVectorUp env).
Qed.

(** The debounced callback: its exits and what it leaves untouched. *)
Lemma debouncedUpsert_run env id w :
  ∃ w', debouncedUpsert env id w
        = (Ok tt, withDebounceMap (base.delete (toString id)) w')
      ∧ timers w' = timers w
      ∧ carVectors w' =
          match (if carProductUp env then carProducts w !! id else None) with
          | Some car =>
              match embedQueryResult env (carText car) with
              | Ok vector =>
                  if carVectorUp env
                  then findOneAndUpdate_upsert
                         (vectorDocument car (carText car) vector) (carVectors w)
                  else carVectors w
              | Throw _ => carVectors w
              end
          | None => carVectors w
          end.
Proof.
  unfold debouncedUpsert, tryFinally, tryCatch, bind, findById.
  destruct (carProductUp env).
  - unfold gets. cbv beta iota.
    destruct (carProducts w !! id) as [car|] eqn:Hfound.
    + rewrite upsertEmbeddingForCar_run. cbv zeta.
      destruct (embedQueryResult env (carText car));
        [destruct (carVectorUp env)|]; eexists; split; done.
    + eexists; split; done.
  - eexists; split; done.
Qed.
End SyncFacts.

(** ** The upsert on the collection *)

Section UpsertFacts.
Import VectorSync.

Implicit Types (doc d : VectorRecord) (docs : list VectorRecord).





Lemma countFor_cons id d docs :
  countFor id (d :: docs)
  = ((if hasCarId id d then 1 else 0) + countFor id docs)%nat.
Proof.
  unfold countFor, hasCarId. rewrite filter_cons.
  destruct (decide (carId d = id)) as [Heq|Hne].
  - by rewrite bool_decide_eq_true_2.
  - by rewrite bool_decide_eq_false_2.
Qed.




End UpsertFacts.




(** ** The subscription loop *)

Section LoopFacts.
Import VectorSync.

Implicit Types (env : Env) (w : World).

Lemma fireTimer_debounced env id carId t w :
  timers w !! id = Some t → action t = DebouncedUpsert carId →
  fireTimer env id w = debouncedUpsert env carId (withTimers (base.delete id) w).
Proof.
  intros Hpending Haction. unfold fireTimer, bind, gets, modify.
  by rewrite Hpending, Haction.
Qed.

Lemma fireTimer_rewatch env id t w :
  timers w !! id = Some t → action t = Rewatch →
  fireTimer env id w = watchCarChanges (withTimers (base.delete id) w).
Proof.
  intros Hpending Haction. unfold fireTimer, bind, gets, modify.
  by rewrite Hpending, Haction.
Qed.

Lemma fireTimer_ok env id w : (fireTimer env id w).1 = Ok tt.
Proof.
  destruct (timers w !! id) as [t|] eqn:Hpending.
  - destruct (action t) as [carId|] eqn:Haction.
    + rewrite (fireTimer_debounced _ _ _ _ _ Hpending Haction).
      by destruct (debouncedUpsert_run env carId (withTimers (base.delete id) w))
        as (w' & -> & _).
    + by rewrite (fireTimer_rewatch _ _ _ _ Hpending Haction).
  - unfold fireTimer, bind, gets. by rewrite Hpending.
Qed.

Lemma dispatch_ok env o w : (dispatch env o w).1 = Ok tt.
Proof.
  destruct o as [change|error|id]; simpl.
  - apply onChange_ok.
  - done.
  - apply fireTimer_ok.
Qed.


End LoopFacts.



(** A failing event between two good ones: the later insert is indexed. *)
Example bad_event_does_not_starve :
  VectorSync.text <$>
    VectorSync.carVectors
      (VectorSync.run
         [(Scenario.online 0, VectorSync.Change Scenario.orphaned);
          (Scenario.online 10, VectorSync.StreamError "connection reset");
          (Scenario.online 20, VectorSync.Change Scenario.inserted)]
         VectorSync.initial).2
  = ["Corolla Toyota"].
Proof. reflexivity. Qed.

(** C5: when the embedding provider rejects the call, [upsertEmbeddingForCar]
    logs the error and returns without writing: the collection of
    VectorRecords is exactly what it was, whether the call came from the
    change listener or from the debounced callback. *)
Theorem embedding_failure_leaves_index (env : VectorSync.Env) (car : Car)
    (w : VectorSync.World) (error : string) :
  VectorSync.embedQueryResult env (VectorSync.carText car) = Throw error →
  VectorSync.upsertEmbeddingForCar env (Some car) w
  = (Ok tt,
     VectorSync.withConsole
       (VectorSync.console w ++
        [{| VectorSync.level := VectorSync.ERROR;
            VectorSync.line := "Error generating embedding:" ++ " " ++ error |}])%list
       (VectorSync.withEmbedCalls
          (VectorSync.embedCalls w ++ [VectorSync.carText car])%list w))
  ∧ VectorSync.carVectors (VectorSync.upsertEmbeddingForCar env (Some car) w).2
    = VectorSync.carVectors w
  ∧ (∀ change,
       VectorSync.fullDocument change = Some car →
       VectorSync.operationType change = VectorSync.insert
       ∨ VectorSync.operationType change = VectorSync.update →
       VectorSync.carVectors (VectorSync.onChange env change w).2
       = VectorSync.carVectors w)
  ∧ (∀ id,
       VectorSync.carProducts w !! id = Some car →
       VectorSync.carVectors (VectorSync.debouncedUpsert env id w).2
       = VectorSync.carVectors w).
Proof.
  intros Hfail.
  assert (Hrun := upsertEmbeddingForCar_run env car w).
  cbv zeta in Hrun. rewrite Hfail in Hrun.
  split; [exact Hrun|]. split; [by rewrite Hrun|]. split.
  - intros change Hdoc Hop.
    rewrite onChange_upsert_vectors by done. by rewrite Hdoc, Hfail.
  - intros id Hfound.
    destruct (debouncedUpsert_run env id w) as (w' & -> & _ & Hvectors).
    simpl. rewrite Hvectors.
    destruct (VectorSync.carProductUp env); [|done].
    by rewrite Hfound, Hfail.
Qed.

Lemma embedding_failure_leaves_index_witness :
  VectorSync.carVectors
    (VectorSync.upsertEmbeddingForCar (Scenario.overQuota 0)
       (Some Scenario.corolla) (Scenario.indexed "Corolla")).2
  = [Scenario.indexedCorolla].
Proof.
  destruct (embedding_failure_leaves_index (Scenario.overQuota 0)
              Scenario.corolla (Scenario.indexed "Corolla")
              "429 Too Many Requests" eq_refl) as (_ & Hsame & _).
  exact Hsame.
Defined.

(** C10: the debounced callback always completes normally and, whatever
    the re-fetch and the upsert did, the debounce map holds no entry for the
    record id afterwards; the timer that fired is no longer pending. *)
Theorem fired_timer_leaves_no_entry (env : VectorSync.Env) (carId : ObjectId)
    (w : VectorSync.World) :
  (VectorSync.debouncedUpsert env carId w).1 = Ok tt
  ∧ VectorSync.debounceMap (VectorSync.debouncedUpsert env carId w).2
      !! toString carId = None
  ∧ (∀ id t,
       VectorSync.timers w !! id = Some t →
       VectorSync.action t = VectorSync.DebouncedUpsert carId →
       (VectorSync.fireTimer env id w).1 = Ok tt
       ∧ VectorSync.debounceMap (VectorSync.fireTimer env id w).2
           !! toString carId = None
       ∧ VectorSync.timers (VectorSync.fireTimer env id w).2 !! id = None).
Proof.
  split; [|split].
  - by destruct (debouncedUpsert_run env carId w) as (w' & -> & _).
  - destruct (debouncedUpsert_run env carId w) as (w' & -> & _).
    apply lookup_delete_eq.
  - intros id t Hpending Haction.
    rewrite (fireTimer_debounced _ _ _ _ _ Hpending Haction).
    destruct (debouncedUpsert_run env carId
                (VectorSync.withTimers (base.delete id) w))
      as (w' & -> & Htimers & _).
    split; [done|]. split; [apply lookup_delete_eq|].
    simpl. rewrite Htimers. apply lookup_delete_eq.
Qed.

Lemma fired_timer_leaves_no_entry_witness :
  VectorSync.debounceMap
    (VectorSync.fireTimer (Scenario.overQuota 3000) 0%nat Scenario.debouncing).2
    !! "c1" = None.
Proof.
  destruct (fired_timer_leaves_no_entry (Scenario.overQuota 3000) "c1"
              Scenario.debouncing) as (_ & _ & Hfire).
  destruct (Hfire 0%nat
              {| VectorSync.fireAt := 3000;
                 VectorSync.action := VectorSync.DebouncedUpsert "c1" |}
              eq_refl eq_refl) as (_ & Hgone & _).
  exact Hgone.
Defined.

(** ** Updates as the listener treats them *)

Section UpdateFacts.
Import VectorSync.

(** Every update that carries its document is embedded at once from that
    document; no timer is started and the debounce map is not touched. *)
Lemma update_embeds_immediately env change car w :
  operationType change = update →
  fullDocument change = Some car →
  let w' := (onChange env change w).2 in
  embedCalls w' = (embedCalls w ++ [carText car])%list
  ∧ timers w' = timers w
  ∧ debounceMap w' = debounceMap w.
Proof.
  intros Hop Hdoc. unfold onChange, tryCatch.
  rewrite handleChange_insert_or_update, Hdoc by (by right).
  rewrite upsertEmbeddingForCar_run. cbv zeta.
  destruct (embedQueryResult env (carText car)); [|done].
  by destruct (carVectorUp env).
Qed.
End UpdateFacts.

(** C1 at its failing input: two renames of record c1, 100 ms apart and so
    inside the 3000 ms window, call the embedding provider twice; no
    debounce timer is pending afterwards; and the stored text comes from the
    document carried by the second event, not from the record as the primary
    store holds it. *)
Theorem rapid_updates_embed_each_time :
  let w :=
    (VectorSync.run
       [(Scenario.online 0, VectorSync.Change (Scenario.renamed "A"));
        (Scenario.online 100, VectorSync.Change (Scenario.renamed "B"))]
       (Scenario.indexed "C")).2 in
  VectorSync.embedCalls w = ["A Toyota"; "B Toyota"]
  ∧ VectorSync.timers w = ∅
  ∧ VectorSync.debounceMap w = ∅
  ∧ VectorSync.text <$> VectorSync.carVectors w = ["B Toyota"]
  ∧ VectorSync.carText <$> VectorSync.carProducts w !! "c1" = Some "C Toyota".
Proof. vm_compute. done. Qed.

(** C2 at its failing input: an update that changes only the price calls
    the embedding provider, creates a VectorRecord where none existed and,
    where one existed, overwrites its embedding. *)
Theorem price_update_reembeds :
  let fresh :=
    (VectorSync.onChange (Scenario.online 0) (Scenario.repriced 21000)
       VectorSync.initial).2 in
  let present :=
    (VectorSync.onChange (Scenario.online 0) (Scenario.repriced 21000)
       (Scenario.indexed "Corolla")).2 in
  VectorSync.embedCalls fresh = ["Corolla Toyota"]
  ∧ VectorSync.countFor "c1" (VectorSync.carVectors fresh) = 1%nat
  ∧ VectorSync.embedCalls present = ["Corolla Toyota"]
  ∧ VectorSync.embedding <$> VectorSync.carVectors (Scenario.indexed "Corolla")
    = [[7]]
  ∧ VectorSync.embedding <$> VectorSync.carVectors present = [[14]].
Proof. vm_compute. done. Qed.

(** C9 at its failing input: the text built by [upsertEmbeddingForCar] has
    nothing in the place of a missing field, so a record with only a brand
    and a record with only that name get the same text, while the document
    builder of the bulk route writes N/A for each missing optional field. *)
Theorem change_feed_text_omits_missing_fields :
  VectorSync.carText Scenario.corolla = "Corolla Toyota"
  ∧ VectorSync.carText (Scenario.car "c2" None (Some "Toyota") None) = "Toyota"
  ∧ VectorSync.carText (Scenario.car "c3" (Some "Toyota") None None) = "Toyota"
  ∧ VectorSync.carText (Scenario.car "c4" None None None) = ""
  ∧ CarDoc.pageContent (CarDoc.transformCarToDocument Scenario.corolla)
    = Js.join CarDoc.nl
        ["Car: Corolla"; "Brand: Toyota"; "Model Year: N/A"; "Category: N/A";
         "Description: N/A"; "Price: $20000"; "Fuel Type: N/A";
         "Transmission: N/A"; "Engine Capacity: N/A"; "Mileage: N/A"].
Proof. vm_compute. done. Qed.

(** * Further properties *)

(** ** The cache: sweeps and overwrites *)

Section SweepFacts.
Context {V : Type}.
Implicit Types (c : SimpleCache.t V) (key : string).
Import SimpleCache.

Lemma cleanup_lookup now key c :
  cache (cleanup now c) !! key
  = match cache c !! key with
    | Some item => if decide (now ≤ expiresAt item) then Some item else None
    | None => None
    end.
Proof.
  unfold cleanup; simpl. rewrite map_lookup_filter.
  destruct (cache c !! key) as [item|]; simpl; [|done].
  destruct (decide (now ≤ expiresAt item)).
  - rewrite option_guard_True; [done|simpl; lia].
  - rewrite option_guard_False; [done|simpl; lia].
Qed.
End SweepFacts.

(** A sweep is invisible to lookups: at the time of the sweep or later,
    every lookup answers as it would have without the sweep, and a lookup at
    the very time of the sweep finds nothing left to delete. *)
Theorem cleanup_transparent {V : Type} (c : SimpleCache.t V) (key : string)
    (now t : Z) :
  now ≤ t →
  (SimpleCache.get t key (SimpleCache.cleanup now c)).1
  = (SimpleCache.get t key c).1
  ∧ (SimpleCache.get now key (SimpleCache.cleanup now c)).2
    = SimpleCache.cleanup now c.
Proof.
  intros Ht. unfold SimpleCache.get. rewrite cleanup_lookup.
  destruct (SimpleCache.cache c !! key) as [item|]; [|done].
  destruct (decide (now ≤ SimpleCache.expiresAt item)) as [Hlive|Hdead].
  - split; [by destruct (t >? SimpleCache.expiresAt item)|].
    destruct (Z.gtb_spec now (SimpleCache.expiresAt item)); [lia|done].
  - split; [|done].
    destruct (Z.gtb_spec t (SimpleCache.expiresAt item)); [done|lia].
Qed.

Lemma cleanup_transparent_witness :
  (SimpleCache.get 200001 "what toyota do you have?"
     (SimpleCache.cleanup 200000 Scenario.agedCache)).1
  = (SimpleCache.get 200001 "what toyota do you have?" Scenario.agedCache).1.
Proof.
  destruct (cleanup_transparent Scenario.agedCache "what toyota do you have?"
              200000 200001 ltac:(vm_compute; discriminate)) as [Hsame _].
  exact Hsame.
Defined.

(** Sweeps compose: a later sweep after an earlier one leaves what the
    later sweep alone leaves, in particular a repeated sweep changes nothing;
    a sweep only removes entries. *)
Theorem cleanup_absorbs {V : Type} (c : SimpleCache.t V) (t1 t2 : Z) :
  t1 ≤ t2 →
  SimpleCache.cleanup t2 (SimpleCache.cleanup t1 c) = SimpleCache.cleanup t2 c
  ∧ SimpleCache.cache (SimpleCache.cleanup t1 c) ⊆ SimpleCache.cache c
  ∧ (SimpleCache.size (SimpleCache.cleanup t1 c) ≤ SimpleCache.size c)%nat.
Proof.
  intros Ht. split; [|split].
  - unfold SimpleCache.cleanup at 1 3. simpl. f_equal.
    apply map_eq. intros key.
    change (SimpleCache.cache (SimpleCache.cleanup t2 (SimpleCache.cleanup t1 c)) !! key
            = SimpleCache.cache (SimpleCache.cleanup t2 c) !! key).
    rewrite !cleanup_lookup.
    destruct (SimpleCache.cache c !! key) as [item|]; [|done].
    destruct (decide (t1 ≤ SimpleCache.expiresAt item)); [done|].
    destruct (decide (t2 ≤ SimpleCache.expiresAt item)); [lia|done].
  - apply map_filter_subseteq.
  - unfold SimpleCache.size. apply map_subseteq_size, map_filter_subseteq.
Qed.

Lemma cleanup_absorbs_witness :
  SimpleCache.cleanup 200000 (SimpleCache.cleanup 1000 Scenario.agedCache)
  = SimpleCache.cleanup 200000 Scenario.agedCache.
Proof.
  destruct (cleanup_absorbs Scenario.agedCache 1000 200000
              ltac:(vm_compute; discriminate)) as [Hsame _].
  exact Hsame.
Defined.

(** The last [set] of a key wins and restarts its TTL: the cache is the one
    the second [set] alone would give, the value read back is the second one
    for as long as the second insertion is at most TTL old, and lookups of
    other keys answer as before. *)
Theorem set_overwrites {V : Type} (c : SimpleCache.t V) (key other : string)
    (v1 v2 : V) (t1 t2 t : Z) :
  t - t2 ≤ SimpleCache.ttl c →
  other ≠ key →
  let c2 := SimpleCache.set t2 key v2 (SimpleCache.set t1 key v1 c) in
  c2 = SimpleCache.set t2 key v2 c
  ∧ SimpleCache.get t key c2 = (Some v2, c2)
  ∧ (SimpleCache.get t other c2).1 = (SimpleCache.get t other c).1.
Proof.
  intros Ht Hother c2. subst c2.
  assert (Heq : SimpleCache.set t2 key v2 (SimpleCache.set t1 key v1 c)
                = SimpleCache.set t2 key v2 c).
  { unfold SimpleCache.set; simpl. by rewrite insert_insert_eq. }
  rewrite Heq. split; [done|]. split.
  - rewrite (get_live _ _ _
               {| SimpleCache.value := v2;
                  SimpleCache.expiresAt := t2 + SimpleCache.ttl c |});
      [done|apply lookup_insert_eq|simpl; lia].
  - unfold SimpleCache.get, SimpleCache.set; simpl.
    rewrite lookup_insert_ne by done.
    destruct (SimpleCache.cache c !! other) as [item|]; [|done].
    by destruct (t >? SimpleCache.expiresAt item).
Qed.

Lemma set_overwrites_witness :
  SimpleCache.get 300000 "k"
    (SimpleCache.set 200000 "k" 2%nat
       (SimpleCache.set 0 "k" 1%nat (SimpleCache.new Rag.ragCacheTtl)))
  = (Some 2%nat,
     SimpleCache.set 200000 "k" 2%nat
       (SimpleCache.set 0 "k" 1%nat (SimpleCache.new Rag.ragCacheTtl))).
Proof.
  destruct (set_overwrites (SimpleCache.new Rag.ragCacheTtl) "k" "j"
              1%nat 2%nat 0 200000 300000
              ltac:(vm_compute; discriminate) ltac:(discriminate))
    as (_ & Hread & _).
  exact Hread.
Defined.

(** ** The listener: deletes, other records, order of events *)

Section CollectionFacts.
Import VectorSync Derived.

Implicit Types (doc d : VectorRecord) (docs : list VectorRecord) (id : ObjectId).

Lemma hasCarId_true id d : hasCarId id d = true ↔ carId d = id.
Proof. unfold hasCarId. apply bool_decide_eq_true. Qed.

Lemma hasCarId_false id d : hasCarId id d = false ↔ carId d ≠ id.
Proof. unfold hasCarId. apply bool_decide_eq_false. Qed.

Lemma recordsOf_cons id d docs :
  recordsOf id (d :: docs)
  = if hasCarId id d then d :: recordsOf id docs else recordsOf id docs.
Proof.
  unfold recordsOf. rewrite filter_cons.
  destruct (decide (carId d = id)) as [Heq|Hne].
  - by rewrite (proj2 (hasCarId_true id d) Heq).
  - by rewrite (proj2 (hasCarId_false id d) Hne).
Qed.

Lemma countFor_recordsOf id docs : countFor id docs = length (recordsOf id docs).
Proof. done. Qed.

Lemma deleteFirst_count id docs :
  countFor id (deleteFirst (hasCarId id) docs) = pred (countFor id docs).
Proof.
  induction docs as [|d rest IH]; simpl; [done|].
  destruct (hasCarId id d) eqn:Hd; rewrite !countFor_cons, ?Hd; simpl; [done|].
  by rewrite IH.
Qed.

Lemma deleteFirst_absent id docs :
  countFor id docs = 0%nat → deleteFirst (hasCarId id) docs = docs.
Proof.
  induction docs as [|d rest IH]; simpl; [done|].
  rewrite countFor_cons. destruct (hasCarId id d); simpl; [done|].
  intros Hnone. by rewrite IH.
Qed.

Lemma deleteFirst_others id id' docs :
  id' ≠ id →
  recordsOf id' (deleteFirst (hasCarId id) docs) = recordsOf id' docs.
Proof.
  intros Hne. induction docs as [|d rest IH]; simpl; [done|].
  destruct (hasCarId id d) eqn:Hd; rewrite !recordsOf_cons.
  - apply hasCarId_true in Hd.
    by rewrite (proj2 (hasCarId_false id' d)) by congruence.
  - by rewrite IH.
Qed.

Lemma updateFirst_others id id' doc docs docs' :
  id' ≠ id → carId doc = id →
  updateFirst (hasCarId id) (λ _, doc) docs = Some docs' →
  recordsOf id' docs' = recordsOf id' docs.
Proof.
  intros Hne Hdoc. revert docs'.
  induction docs as [|d rest IH]; intros docs'; simpl; [done|].
  destruct (hasCarId id d) eqn:Hd.
  - intros [= <-]. rewrite !recordsOf_cons. apply hasCarId_true in Hd.
    rewrite (proj2 (hasCarId_false id' d)) by congruence.
    by rewrite (proj2 (hasCarId_false id' doc)) by congruence.
  - destruct (updateFirst _ _ rest) as [rest'|]; simpl; [|done].
    intros [= <-]. rewrite !recordsOf_cons. by rewrite (IH rest').
Qed.

Lemma upsert_others id' doc docs :
  id' ≠ carId doc →
  recordsOf id' (findOneAndUpdate_upsert doc docs) = recordsOf id' docs.
Proof.
  intros Hne. unfold findOneAndUpdate_upsert.
  destruct (updateFirst _ _ docs) as [docs'|] eqn:Hfirst.
  - by apply (updateFirst_others (carId doc) id' doc docs).
  - unfold recordsOf. rewrite filter_app, filter_cons_False by congruence.
    by rewrite filter_nil, app_nil_r.
Qed.




End CollectionFacts.

Section ListenerFacts.
Import VectorSync Derived.

Implicit Types (env : Env) (w : World) (change : ChangeEvent).

(** What the listener does with a delete event. *)
Lemma onChange_delete_run env change w :
  operationType change = delete →
  onChange env change w =
    if carVectorUp env then
      (Ok tt,
       withConsole
         (console w ++
          [{| level := LOG;
              line := "Deleted embedding for removed car ID: " ++
                      toString (documentKey change) |}])%list
         (withCarVectors (findOneAndDelete (documentKey change)) w))
    else
      (Ok tt,
       withConsole
         (console w ++
          [{| level := ERROR;
              line := "Error processing change event:" ++ " " ++
                      "MongoError: CarVector operation failed" |}])%list w).
Proof.
  intros Hop. unfold onChange, tryCatch, handleChange. rewrite Hop.
  unfold carVectorCall. by destruct (carVectorUp env).
Qed.

(** The parts of the process no change event ever alters. *)
Lemma onChange_frame env change w :
  timers (onChange env change w).2 = timers w
  ∧ debounceMap (onChange env change w).2 = debounceMap w
  ∧ nextTimer (onChange env change w).2 = nextTimer w
  ∧ subscriptions (onChange env change w).2 = subscriptions w
  ∧ carProducts (onChange env change w).2 = carProducts w.
Proof.
  destruct (operationType change) as [| | | |kind] eqn:Hop.
  1,2: unfold onChange, tryCatch;
       rewrite handleChange_insert_or_update by (rewrite Hop; auto);
       (destruct (fullDocument change) as [car|]; [|done]);
       rewrite upsertEmbeddingForCar_run; cbv zeta;
       (destruct (embedQueryResult env (carText car)); [|done]);
       by destruct (carVectorUp env).
  - unfold onChange, tryCatch, handleChange. by rewrite Hop.
  - rewrite onChange_delete_run by done. by destruct (carVectorUp env).
  - unfold onChange, tryCatch, handleChange. by rewrite Hop.
Qed.

Lemma onChange_embedCalls env change w :
  embedCalls (onChange env change w).2
  = (embedCalls w ++
     match fullDocument change with
     | Some car => if embeds change then [carText car] else []
     | None => []
     end)%list.
Proof.
  unfold embeds.
  destruct (operationType change) as [| | | |kind] eqn:Hop.
  1,2: unfold onChange, tryCatch;
       rewrite handleChange_insert_or_update by (rewrite Hop; auto);
       (destruct (fullDocument change) as [car|];
          [|by rewrite app_nil_r]);
       rewrite upsertEmbeddingForCar_run; cbv zeta;
       (destruct (embedQueryResult env (carText car)); [|done]);
       by destruct (carVectorUp env).
  - unfold onChange, tryCatch, handleChange. rewrite Hop. simpl.
    destruct (fullDocument change); by rewrite app_nil_r.
  - rewrite onChange_delete_run by done.
    destruct (carVectorUp env); simpl; destruct (fullDocument change);
      by rewrite app_nil_r.
  - unfold onChange, tryCatch, handleChange. rewrite Hop. simpl.
    destruct (fullDocument change); by rewrite app_nil_r.
Qed.
End ListenerFacts.

(** A delete event removes one VectorRecord of the record, the first one:
    the count for the id drops by one (so chunk documents beyond the first
    stay), records of other ids are untouched, a delete for an id without
    any VectorRecord changes nothing, and no embedding is requested. *)
Theorem delete_event_removes_one (env : VectorSync.Env)
    (change : VectorSync.ChangeEvent) (w : VectorSync.World) :
  VectorSync.operationType change = VectorSync.delete →
  VectorSync.carVectorUp env = true →
  let w' := (VectorSync.onChange env change w).2 in
  VectorSync.countFor (VectorSync.documentKey change) (VectorSync.carVectors w')
  = pred (VectorSync.countFor (VectorSync.documentKey change)
            (VectorSync.carVectors w))
  ∧ (∀ id', id' ≠ VectorSync.documentKey change →
       Derived.recordsOf id' (VectorSync.carVectors w')
       = Derived.recordsOf id' (VectorSync.carVectors w))
  ∧ (VectorSync.countFor (VectorSync.documentKey change)
       (VectorSync.carVectors w) = 0%nat →
     VectorSync.carVectors w' = VectorSync.carVectors w)
  ∧ VectorSync.embedCalls w' = VectorSync.embedCalls w.
Proof.
  intros Hop Hup w'. subst w'.
  rewrite onChange_delete_run, Hup by done. simpl.
  unfold VectorSync.findOneAndDelete. split; [|split; [|split]].
  - apply deleteFirst_count.
  - intros id' Hne. by apply deleteFirst_others.
  - apply deleteFirst_absent.
  - done.
Qed.

Lemma delete_event_removes_one_witness :
  VectorSync.countFor "c1"
    (VectorSync.carVectors
       (VectorSync.onChange (Scenario.online 0) Cases.removed
          Scenario.chunked).2)
  = pred (VectorSync.countFor "c1" (VectorSync.carVectors Scenario.chunked)).
Proof.
  destruct (delete_event_removes_one (Scenario.online 0) Cases.removed
              Scenario.chunked eq_refl eq_refl) as [Hcount _].
  exact Hcount.
Defined.



(** A change event touches the VectorRecords of its own record only: the
    documents of every other id are the same, in the same order, after the
    listener has run. *)
Theorem event_touches_only_its_record (env : VectorSync.Env)
    (change : VectorSync.ChangeEvent) (w : VectorSync.World) (id' : ObjectId) :
  id' ≠ VectorSync.documentKey change →
  (∀ car, VectorSync.fullDocument change = Some car → _id car ≠ id') →
  Derived.recordsOf id' (VectorSync.carVectors (VectorSync.onChange env change w).2)
  = Derived.recordsOf id' (VectorSync.carVectors w).
Proof.
  intros Hkey Hdoc.
  destruct (VectorSync.operationType change) as [| | | |kind] eqn:Hop.
  1,2: rewrite onChange_upsert_vectors by (rewrite Hop; auto);
       (destruct (VectorSync.fullDocument change) as [car|]; [|done]);
       (destruct (VectorSync.embedQueryResult env (VectorSync.carText car));
          [|done]);
       (destruct (VectorSync.carVectorUp env); [|done]);
       apply upsert_others; simpl; intros ->; by apply (Hdoc car).
  - unfold VectorSync.onChange, VectorSync.tryCatch, VectorSync.handleChange.
    by rewrite Hop.
  - rewrite onChange_delete_run by done.
    destruct (VectorSync.carVectorUp env); [|done].
    by apply deleteFirst_others.
  - unfold VectorSync.onChange, VectorSync.tryCatch, VectorSync.handleChange.
    by rewrite Hop.
Qed.

Lemma event_touches_only_its_record_witness :
  Derived.recordsOf "c1"
    (VectorSync.carVectors
       (VectorSync.onChange (Scenario.online 0) Cases.insertedCivic
          (Scenario.indexed "Corolla")).2)
  = Derived.recordsOf "c1" (VectorSync.carVectors (Scenario.indexed "Corolla")).
Proof.
  apply (event_touches_only_its_record (Scenario.online 0) Cases.insertedCivic
           (Scenario.indexed "Corolla") "c1").
  - discriminate.
  - intros car [= <-]. discriminate.
Defined.



(** ** The listener: timers and provider calls *)

Section FeedFacts.
Import VectorSync Derived.

Implicit Types (env : Env) (w : World).

Lemma run_cons env o rest w :
  run ((env, o) :: rest) w = run rest (dispatch env o w).2.
Proof.
  simpl. unfold bind. pose proof (dispatch_ok env o w) as Hok.
  by destruct (dispatch env o w) as [[[]|e] w'].
Qed.

Lemma debouncedUpsert_nextTimer env id w :
  nextTimer (debouncedUpsert env id w).2 = nextTimer w.
Proof.
  unfold debouncedUpsert, tryFinally, tryCatch, bind, findById.
  destruct (carProductUp env); [|done].
  unfold gets. cbv beta iota.
  destruct (carProducts w !! id) as [car|]; [|done].
  rewrite upsertEmbeddingForCar_run. cbv zeta.
  destruct (embedQueryResult env (carText car)); [|done].
  by destruct (carVectorUp env).
Qed.

Lemma dispatch_timersFresh env o w :
  timersFresh w → timersFresh (dispatch env o w).2.
Proof.
  intros Hfresh. destruct o as [change|error|id]; simpl.
  - destruct (onChange_frame env change w) as (Ht & _ & Hn & _).
    intros i t. rewrite Ht, Hn. apply Hfresh.
  - intros i t. simpl.
    destruct (decide (i = nextTimer w)) as [->|Hne].
    + intros _. lia.
    + rewrite lookup_insert_ne by done. intros Hi.
      specialize (Hfresh _ _ Hi). lia.
  - destruct (timers w !! id) as [t0|] eqn:Hpending.
    + destruct (action t0) as [carId|] eqn:Haction.
      * rewrite (fireTimer_debounced _ _ _ _ _ Hpending Haction).
        pose proof (debouncedUpsert_nextTimer env carId
                      (withTimers (base.delete id) w)) as Hnext.
        destruct (debouncedUpsert_run env carId (withTimers (base.delete id) w))
          as (w' & Hrun & Htimers & _).
        intros i t Hi. rewrite Hnext. rewrite Hrun in Hi. simpl in Hi.
        rewrite Htimers in Hi. simpl in Hi.
        apply lookup_delete_Some in Hi as [_ Hi]. exact (Hfresh i t Hi).
      * rewrite (fireTimer_rewatch _ _ _ _ Hpending Haction).
        intros i t Hi.
        change (base.delete id (timers w) !! i = Some t) in Hi.
        apply lookup_delete_Some in Hi as [_ Hi].
        exact (Hfresh i t Hi).
    + unfold fireTimer, bind, gets. by rewrite Hpending.
Qed.
End FeedFacts.

(** No change event, of any kind, starts or cancels a timer or writes the
    debounce map: after any sequence of change events the pending timers,
    the debounce map and the next timer handle are what they were. *)
Theorem changes_never_touch_timers (feed : list (VectorSync.Env * VectorSync.ChangeEvent))
    (w : VectorSync.World) :
  let w' := (VectorSync.run (Derived.asChanges feed) w).2 in
  VectorSync.timers w' = VectorSync.timers w
  ∧ VectorSync.debounceMap w' = VectorSync.debounceMap w
  ∧ VectorSync.nextTimer w' = VectorSync.nextTimer w.
Proof.
  revert w. induction feed as [|[env change] rest IH]; intros w; [done|].
  unfold Derived.asChanges. simpl map. rewrite run_cons. simpl VectorSync.dispatch.
  destruct (onChange_frame env change w) as (Ht & Hd & Hn & _).
  destruct (IH (VectorSync.onChange env change w).2) as (Ht' & Hd' & Hn').
  cbv zeta in *. unfold Derived.asChanges in *.
  by rewrite Ht', Hd', Hn', Ht, Hd, Hn.
Qed.

(** The embedding provider is called once for every insert or update event
    that carries its document, at the moment the event is handled, and for
    no other change event. *)
Theorem provider_called_once_per_write (feed : list (VectorSync.Env * VectorSync.ChangeEvent))
    (w : VectorSync.World) :
  length (VectorSync.embedCalls (VectorSync.run (Derived.asChanges feed) w).2)
  = (length (VectorSync.embedCalls w)
     + length (filter (λ ec, Derived.embeds ec.2 = true) feed))%nat.
Proof.
  revert w. induction feed as [|[env change] rest IH]; intros w.
  - simpl. lia.
  - unfold Derived.asChanges. simpl map. rewrite run_cons. simpl VectorSync.dispatch.
    fold (Derived.asChanges rest).
    rewrite IH, onChange_embedCalls, length_app, filter_cons.
    destruct (decide _) as [Hyes|Hno]; simpl in *.
    + rewrite Hyes.
      destruct (VectorSync.fullDocument change) as [car|] eqn:Hdoc; simpl; [lia|].
      unfold Derived.embeds in Hyes. rewrite Hdoc in Hyes.
      rewrite (bool_decide_eq_false_2 (is_Some None)) in Hyes
        by apply is_Some_None.
      by rewrite andb_false_r in Hyes.
    + apply not_true_is_false in Hno. rewrite Hno.
      destruct (VectorSync.fullDocument change); simpl; lia.
Qed.



(** Timer handles are never reused: if every pending timer has a handle
    below the next one to be issued, this still holds after any feed of
    change events, stream errors and timer firings; hence a stream error
    adds one pending re-watch timer and keeps every timer already pending. *)
Theorem timer_handles_fresh (feed : list (VectorSync.Env * VectorSync.Occurrence))
    (w : VectorSync.World) :
  Derived.timersFresh w →
  let w' := (VectorSync.run feed w).2 in
  Derived.timersFresh w'
  ∧ ∀ env error,
      size (VectorSync.timers (VectorSync.onError env error w').2)
      = S (size (VectorSync.timers w'))
      ∧ VectorSync.timers w' ⊆ VectorSync.timers (VectorSync.onError env error w').2.
Proof.
  intros Hfresh w'. subst w'.
  assert (Hlater : Derived.timersFresh (VectorSync.run feed w).2).
  { revert w Hfresh. induction feed as [|[env o] rest IH]; intros w Hfresh;
      [done|].
    rewrite run_cons. by apply IH, dispatch_timersFresh. }
  split; [done|]. intros env error. simpl.
  assert (Hfree : VectorSync.timers (VectorSync.run feed w).2
                  !! VectorSync.nextTimer (VectorSync.run feed w).2 = None).
  { destruct (VectorSync.timers (VectorSync.run feed w).2
              !! VectorSync.nextTimer (VectorSync.run feed w).2) as [t|] eqn:Ht;
      [|done].
    specialize (Hlater _ _ Ht). lia. }
  split.
  - by apply map_size_insert_None.
  - by apply insert_subseteq.
Qed.

Lemma timer_handles_fresh_witness :
  size (VectorSync.timers
          (VectorSync.onError (Scenario.online 9000) "connection reset"
             (VectorSync.run
                [(Scenario.online 0, VectorSync.StreamError "connection reset");
                 (Scenario.online 10, VectorSync.Change Scenario.inserted)]
                VectorSync.initial).2).2)
  = 2%nat.
Proof.
  destruct (timer_handles_fresh
              [(Scenario.online 0, VectorSync.StreamError "connection reset");
               (Scenario.online 10, VectorSync.Change Scenario.inserted)]
              VectorSync.initial
              ltac:(intros id t Hnone; vm_compute in Hnone; discriminate))
    as [_ Hadd].
  destruct (Hadd (Scenario.online 9000) "connection reset") as [Hsize _].
  rewrite Hsize. reflexivity.
Defined.

(** ** The answer path: keys, blank queries, what the cache holds *)

Section KeyFacts.
Import Js.

Lemma lowerChar_idempotent c : lowerChar (lowerChar c) = lowerChar c.
Proof. destruct c as [[] [] [] [] [] [] [] []]; reflexivity. Qed.

Lemma toLowerCase_idempotent s : toLowerCase (toLowerCase s) = toLowerCase s.
Proof.
  induction s as [|c r IH]; simpl; [done|].
  by rewrite lowerChar_idempotent, IH.
Qed.

Lemma trimEnd_idempotent s : trimEnd (trimEnd s) = trimEnd s.
Proof.
  induction s as [|c r IH]; simpl; [done|].
  destruct (isEmpty (trimEnd r) && isWhiteSpace c) eqn:Hcut; simpl; [done|].
  by rewrite IH, Hcut.
Qed.

(** A string without leading white space keeps its head under [trimEnd]. *)
Lemma trimStart_trimEnd s :
  trimStart s = s → trimStart (trimEnd s) = trimEnd s.
Proof.
  destruct s as [|c r]; simpl; [done|].
  destruct (isWhiteSpace c) eqn:Hc.
  - intros Hfix. exfalso.
    assert (Hlen : (String.length (trimStart r) ≤ String.length r)%nat).
    { clear. induction r as [|c r IH]; simpl; [done|].
      destruct (isWhiteSpace c); simpl; lia. }
    rewrite Hfix in Hlen. simpl in Hlen. lia.
  - intros _. rewrite andb_false_r. simpl. by rewrite Hc.
Qed.

Lemma trimStart_idempotent s : trimStart (trimStart s) = trimStart s.
Proof.
  induction s as [|c r IH]; simpl; [done|].
  destruct (isWhiteSpace c) eqn:Hc; [done|]. simpl. by rewrite Hc.
Qed.

Lemma trim_idempotent s : trim (trim s) = trim s.
Proof.
  unfold trim.
  rewrite (trimStart_trimEnd (trimStart s)) by apply trimStart_idempotent.
  apply trimEnd_idempotent.
Qed.

Lemma trimStart_blank s :
  Derived.allWhiteSpace s = true ↔ trimStart s = "".
Proof.
  induction s as [|c r IH]; simpl; [done|].
  destruct (isWhiteSpace c); simpl; [done|]. split; discriminate.
Qed.

Lemma trimEnd_empty s : trimEnd s = "" ↔ Derived.allWhiteSpace s = true.
Proof.
  induction s as [|c r IH]; simpl; [done|].
  destruct (trimEnd r) as [|c' r'] eqn:Hr; simpl.
  - destruct (isWhiteSpace c); simpl; [|split; discriminate].
    rewrite <- IH. done.
  - split; [discriminate|]. intros Hall.
    apply andb_true_iff in Hall as [_ Hall]. by apply IH in Hall.
Qed.

Lemma trim_blank s : Derived.allWhiteSpace s = true ↔ trim s = "".
Proof.
  unfold trim. split.
  - intros Hall. apply trimStart_blank in Hall. by rewrite Hall.
  - intros Hempty. apply trimEnd_empty in Hempty.
    apply trimStart_blank.
    (* the part left by [trimStart] is white space only, yet it does not
       start with white space: it is empty *)
    destruct (trimStart s) as [|c r] eqn:Hs; [done|].
    assert (Hhead : isWhiteSpace c = false).
    { clear Hempty. revert c r Hs. induction s as [|c0 r0 IH]; simpl; [done|].
      destruct (isWhiteSpace c0) eqn:Hc0; [apply IH|].
      intros c r [= <- <-]. done. }
    simpl in Hempty. by rewrite Hhead in Hempty.
Qed.
End KeyFacts.

Lemma cacheKey_cacheKey q : Rag.cacheKey (Rag.cacheKey q) = Rag.cacheKey q.
Proof.
  unfold Rag.cacheKey.
  by rewrite <- (trim_toLowerCase (Js.toLowerCase q)),
    toLowerCase_idempotent, trim_idempotent.
Qed.

(** The cache key is a fixed point of the normalisation: normalising a key
    again, trimming it or lower-casing it gives the key itself. *)
Theorem cacheKey_idempotent (q : string) :
  Rag.cacheKey (Rag.cacheKey q) = Rag.cacheKey q
  ∧ Js.trim (Rag.cacheKey q) = Rag.cacheKey q
  ∧ Js.toLowerCase (Rag.cacheKey q) = Rag.cacheKey q.
Proof.
  split; [apply cacheKey_cacheKey|]. unfold Rag.cacheKey. split.
  - apply trim_idempotent.
  - by rewrite trim_toLowerCase, toLowerCase_idempotent.
Qed.

(** A query is rejected with status 400 exactly when it is missing or made
    of white space only; the rejection leaves the cache untouched, and any
    other query is answered with another status. *)
Theorem blank_queries_rejected (env : Rag.Env) (q : string)
    (cache : SimpleCache.t Rag.ResponseData) :
  Rag.askCarAssistant env None cache
  = ({| Rag.status := 400; Rag.body := Rag.Message "Please provide a question." |},
     cache)
  ∧ (Derived.allWhiteSpace q = true →
     Rag.askCarAssistant env (Some q) cache
     = ({| Rag.status := 400;
           Rag.body := Rag.Message "Please provide a question." |}, cache))
  ∧ (Derived.allWhiteSpace q = false →
     Rag.status (Rag.askCarAssistant env (Some q) cache).1 ≠ 400).
Proof.
  split; [done|]. split.
  - intros Hblank. apply askCarAssistant_blank.
    rewrite <- blank_iff_empty_key, isEmpty_length.
    apply trim_blank in Hblank. rewrite Hblank. by destruct q.
  - intros Hsome.
    assert (Hkey : Js.isEmpty (Rag.cacheKey q) = false).
    { rewrite <- blank_iff_empty_key, isEmpty_length.
      destruct (Js.isEmpty (Js.trim q)) eqn:Hempty.
      - apply isEmpty_true, trim_blank in Hempty. congruence.
      - destruct q; [done|]. done. }
    rewrite askCarAssistant_cases by done. cbv zeta.
    destruct (SimpleCache.get _ _ cache).1; [done|].
    by destruct (Rag.compose env q).
Qed.

Lemma blank_queries_rejected_witness :
  Rag.askCarAssistant Scenario.answered (Some "   ") Scenario.agedCache
  = ({| Rag.status := 400; Rag.body := Rag.Message "Please provide a question." |},
     Scenario.agedCache).
Proof.
  destruct (blank_queries_rejected Scenario.answered "   " Scenario.agedCache)
    as (_ & Hblank & _).
  exact (Hblank eq_refl).
Defined.

Section ServeFacts.
Import Rag Derived.

Lemma askCarAssistant_keeps_invariants env q cache :
  storedFresh cache → keysNormalized cache →
  storedFresh (askCarAssistant env q cache).2
  ∧ keysNormalized (askCarAssistant env q cache).2
  ∧ SimpleCache.ttl (askCarAssistant env q cache).2 = SimpleCache.ttl cache.
Proof.
  intros Hfresh Hkeys. destruct q as [q|]; [|done].
  destruct (Js.isEmpty (cacheKey q)) eqn:Hkey.
  { by rewrite askCarAssistant_blank. }
  rewrite askCarAssistant_cases by done. cbv zeta.
  pose proof (get_subseteq (tLookup env) (cacheKey q) cache) as Hsub.
  pose proof (get_ttl (tLookup env) (cacheKey q) cache) as Httl.
  assert (Hfresh' : storedFresh (SimpleCache.get (tLookup env) (cacheKey q) cache).2).
  { intros key item Hl. eapply Hfresh, lookup_weaken; done. }
  assert (Hkeys' : keysNormalized (SimpleCache.get (tLookup env) (cacheKey q) cache).2).
  { intros key item Hl. eapply Hkeys, lookup_weaken; done. }
  destruct (SimpleCache.get (tLookup env) (cacheKey q) cache) as [[stored|] c'];
    simpl in *; [done|].
  destruct (compose env q) as [r|error]; simpl; [|done].
  split; [|split; [|done]].
  - intros key item. unfold SimpleCache.set; simpl.
    destruct (decide (key = cacheKey q)) as [->|Hne].
    + rewrite lookup_insert_eq. by intros [= <-].
    + rewrite lookup_insert_ne by done. apply Hfresh'.
  - intros key item. unfold SimpleCache.set; simpl.
    destruct (decide (key = cacheKey q)) as [->|Hne].
    + intros _. split; [apply cacheKey_cacheKey|].
      intros Hempty. by rewrite Hempty in Hkey.
    + rewrite lookup_insert_ne by done. apply Hkeys'.
Qed.
End ServeFacts.

(** Whatever requests are served, the cache only ever holds answers as the
    pipeline built them ([cached] false, no [cacheHit]) under non-empty keys
    that are already normalised, and its TTL stays the configured one. *)
Theorem served_cache_invariants
    (requests : list (Rag.Env * option string))
    (cache : SimpleCache.t Rag.ResponseData) :
  Derived.storedFresh cache →
  Derived.keysNormalized cache →
  Derived.storedFresh (Derived.serve requests cache).2
  ∧ Derived.keysNormalized (Derived.serve requests cache).2
  ∧ SimpleCache.ttl (Derived.serve requests cache).2 = SimpleCache.ttl cache.
Proof.
  revert cache. induction requests as [|[env q] rest IH]; intros cache Hf Hk;
    [done|].
  simpl.
  destruct (askCarAssistant_keeps_invariants env q cache Hf Hk)
    as (Hf1 & Hk1 & Httl1).
  destruct (Rag.askCarAssistant env q cache) as [response c1]; simpl in *.
  specialize (IH c1 Hf1 Hk1).
  destruct (Derived.serve rest c1) as [responses c2]; simpl in *.
  destruct IH as (? & ? & ?). split; [done|]. split; [done|]. congruence.
Qed.

Lemma served_cache_invariants_witness :
  Derived.keysNormalized
    (Derived.serve
       [(Scenario.answered, Some "  what Toyota do you have?  ");
        (Scenario.offline, Some "What TOYOTA do you have?");
        (Scenario.timedOut, Some "Any Honda?")]
       Rag.ragCache).2.
Proof.
  destruct (served_cache_invariants
              [(Scenario.answered, Some "  what Toyota do you have?  ");
               (Scenario.offline, Some "What TOYOTA do you have?");
               (Scenario.timedOut, Some "Any Honda?")]
              Rag.ragCache
              ltac:(intros key item Hnone; vm_compute in Hnone; discriminate)
              ltac:(intros key item Hnone; vm_compute in Hnone; discriminate))
    as (_ & Hkeys & _).
  exact Hkeys.
Defined.

(** ** The connection pool *)

Section PoolFacts.
Import MongoPool.

Lemma getClient_consistent env pool :
  consistent pool → consistent (getClient env pool).2.
Proof.
  intros (Hconn & Hlt & Hcalls). unfold getClient.
  destruct (negb (bool_decide (is_Some (client pool))) || negb (isConnected pool));
    [|done].
  cbv zeta.
  destruct (connectResult env); (split; [|split]);
    cbn [snd client isConnected constructed connectCalls].
  - eauto.
  - intros c [= <-]. lia.
  - by rewrite Hcalls, seq_S.
  - intros Hup. destruct (Hconn Hup) as [c Hc]. eauto.
  - intros c [= <-]. lia.
  - by rewrite Hcalls, seq_S.
Qed.

Lemma closePool_consistent env pool :
  consistent pool → consistent (closePool env pool).2.
Proof.
  unfold closePool.
  destruct (client pool) as [c|] eqn:Hclient; [|done].
  destruct (isConnected pool) eqn:Hup; [|done].
  intros (Hconn & Hlt & Hcalls).
  destruct (closeResult env); (split; [|split]);
    cbn [snd client isConnected constructed connectCalls];
    rewrite ?Hclient, ?Hup; eauto; intros c0 [= <-]; by apply Hlt.
Qed.

Lemma calls_consistent history pool :
  consistent pool → consistent (calls history pool).
Proof.
  revert pool. induction history as [|[env c] rest IH]; intros pool Hc; [done|].
  apply IH. destruct c; [by apply getClient_consistent|by apply closePool_consistent].
Qed.
End PoolFacts.

(** Once [getClient] has returned, the pool hands out that same client to
    every later caller without constructing or connecting anything, whatever
    the state of the server, until the pool is closed. *)
Theorem pool_reuses_client (env1 env2 : MongoPool.Env) (pool pool1 : MongoPool.t)
    (r : option nat) :
  MongoPool.getClient env1 pool = (Ok r, pool1) →
  is_Some r ∧ MongoPool.getClient env2 pool1 = (Ok r, pool1).
Proof.
  intros Hget. unfold MongoPool.getClient in Hget |- *.
  destruct (MongoPool.client pool) as [c|] eqn:Hclient;
    destruct (MongoPool.isConnected pool) eqn:Hup; cbn in Hget.
  - injection Hget as <- <-. rewrite Hclient, Hup. cbn. eauto.
  - destruct (MongoPool.connectResult env1); [|done].
    injection Hget as <- <-. cbn. eauto.
  - destruct (MongoPool.connectResult env1); [|done].
    injection Hget as <- <-. cbn. eauto.
  - destruct (MongoPool.connectResult env1); [|done].
    injection Hget as <- <-. cbn. eauto.
Qed.

Lemma pool_reuses_client_witness :
  MongoPool.getClient MongoPool.down (MongoPool.getClient MongoPool.up MongoPool.new).2
  = (Ok (Some 0%nat), (MongoPool.getClient MongoPool.up MongoPool.new).2).
Proof.
  destruct (pool_reuses_client MongoPool.up MongoPool.down MongoPool.new
              (MongoPool.getClient MongoPool.up MongoPool.new).2 (Some 0%nat)
              eq_refl) as [_ Hagain].
  exact Hagain.
Defined.

(** A failed connect is reported to the caller and leaves the pool
    unconnected while holding the client that failed; that client is never
    closed, and the next call constructs another one and connects it. *)
Theorem pool_retries_after_failure (env env2 : MongoPool.Env)
    (pool : MongoPool.t) (error : string) :
  MongoPool.isConnected pool = false →
  MongoPool.connectResult env = Throw error →
  MongoPool.connectResult env2 = Ok tt →
  let failed := MongoPool.getClient env pool in
  failed.1 = Throw error
  ∧ MongoPool.isConnected failed.2 = false
  ∧ MongoPool.client failed.2 = Some (MongoPool.constructed pool)
  ∧ MongoPool.closeCalls failed.2 = MongoPool.closeCalls pool
  ∧ (MongoPool.getClient env2 failed.2).1
    = Ok (Some (S (MongoPool.constructed pool)))
  ∧ MongoPool.connectCalls (MongoPool.getClient env2 failed.2).2
    = (MongoPool.connectCalls pool
       ++ [MongoPool.constructed pool; S (MongoPool.constructed pool)])%list.
Proof.
  intros Hdown Hfail Hok failed. subst failed.
  unfold MongoPool.getClient.
  rewrite Hdown, orb_true_r, Hfail. cbn. rewrite Hok. cbn.
  by rewrite <- app_assoc.
Qed.

Lemma pool_retries_after_failure_witness :
  (MongoPool.getClient MongoPool.up
     (MongoPool.getClient MongoPool.down MongoPool.new).2).1
  = Ok (Some 1%nat).
Proof.
  destruct (pool_retries_after_failure MongoPool.down MongoPool.up MongoPool.new
              "MongoServerSelectionError" eq_refl eq_refl eq_refl)
    as (_ & _ & _ & _ & Hnext & _).
  exact Hnext.
Defined.

(** Closing is idempotent: after [closePool] has returned, further calls do
    nothing (the client is not closed twice); closing a connected pool marks
    it unconnected; and when [close()] rejects, the pool keeps its connected
    flag. *)
Theorem closePool_idempotent (env1 env2 : MongoPool.Env)
    (pool pool1 : MongoPool.t) (error : string) :
  MongoPool.closePool env1 pool = (Ok tt, pool1) →
  MongoPool.closeResult env2 = Throw error →
  MongoPool.closePool env2 pool1 = (Ok tt, pool1)
  ∧ MongoPool.closeCalls (MongoPool.closePool env2 pool1).2
    = MongoPool.closeCalls pool1
  ∧ (is_Some (MongoPool.client pool) → MongoPool.isConnected pool1 = false)
  ∧ MongoPool.isConnected (MongoPool.closePool env2 pool).2
    = MongoPool.isConnected pool.
Proof.
  intros Hclose Hreject. unfold MongoPool.closePool in *.
  destruct (MongoPool.client pool) as [c|] eqn:Hclient.
  - destruct (MongoPool.isConnected pool) eqn:Hup.
    + rewrite Hreject.
      destruct (MongoPool.closeResult env1); [|done].
      injection Hclose as <-. cbn. rewrite ?Hclient. cbn. done.
    + injection Hclose as <-. rewrite ?Hclient, ?Hup. done.
  - injection Hclose as <-. rewrite ?Hclient.
    split; [done|]. split; [done|]. split; [|done]. by intros [? ?].
Qed.

Lemma closePool_idempotent_witness :
  MongoPool.closePool MongoPool.failing
    (MongoPool.closePool MongoPool.up
       (MongoPool.getClient MongoPool.up MongoPool.new).2).2
  = (Ok tt,
     (MongoPool.closePool MongoPool.up
        (MongoPool.getClient MongoPool.up MongoPool.new).2).2).
Proof.
  destruct (closePool_idempotent MongoPool.up MongoPool.failing
              (MongoPool.getClient MongoPool.up MongoPool.new).2
              (MongoPool.closePool MongoPool.up
                 (MongoPool.getClient MongoPool.up MongoPool.new).2).2
              "MongoNetworkError" eq_refl eq_refl) as [Hagain _].
  exact Hagain.
Defined.

(** Whatever calls are made on the pool, it stays consistent: it is
    connected only while it holds a client, the client it holds is one it
    constructed, and every client constructed had [connect()] called on it
    exactly once, in order of construction. *)
Theorem pool_stays_consistent (history : list (MongoPool.Env * MongoPool.Call))
    (pool : MongoPool.t) :
  MongoPool.consistent pool →
  MongoPool.consistent (MongoPool.calls history pool).
Proof. apply calls_consistent. Qed.

Lemma pool_stays_consistent_witness :
  MongoPool.consistent
    (MongoPool.calls
       [(MongoPool.down, MongoPool.GetClient);
        (MongoPool.up, MongoPool.GetClient);
        (MongoPool.up, MongoPool.ClosePool);
        (MongoPool.up, MongoPool.GetClient)]
       MongoPool.new).
Proof.
  apply (pool_stays_consistent _ MongoPool.new).
  split; [discriminate|]. split; [discriminate|]. reflexivity.
Defined.

(** ** Source cards and the document text *)

Section ContextFacts.
Import RagContext.

Lemma string_app_cons (x : ascii) (a b : string) :
  String x a ++ b = String x (a ++ b).
Proof. done. Qed.

Lemma string_app_assoc (a b c : string) : (a ++ b) ++ c = a ++ (b ++ c).
Proof.
  induction a as [|x a IH]; [done|]. rewrite !string_app_cons. by rewrite IH.
Qed.

Lemma singleLine_app a b : singleLine (a ++ b) = singleLine a && singleLine b.
Proof.
  induction a as [|x a IH]; [done|]. rewrite string_app_cons. simpl.
  by rewrite IH, andb_assoc.
Qed.

Lemma firstAndRest_line a rest :
  singleLine a = true →
  firstAndRest (a ++ String (ascii_of_N 10) rest) = (a, splitLines rest).
Proof.
  unfold splitLines. change (ascii_of_N 10) with "010"%char.
  induction a as [|x a IH].
  - intros _. change ("" ++ String "010" rest) with (String "010" rest). simpl.
    by destruct (firstAndRest rest).
  - intros Hline. simpl in Hline. apply andb_true_iff in Hline as [Hx Ha].
    rewrite string_app_cons. simpl.
    rewrite (IH Ha). destruct (firstAndRest rest) as [line lines].
    apply negb_true_iff in Hx. by rewrite Hx.
Qed.

Lemma splitLines_line a rest :
  singleLine a = true →
  splitLines (a ++ CarDoc.nl ++ rest) = a :: splitLines rest.
Proof.
  intros Hline. unfold splitLines at 1.
  change (CarDoc.nl ++ rest) with (String (ascii_of_N 10) rest).
  by rewrite firstAndRest_line.
Qed.

(** Decimal numerals: [pretty_N_go] only puts digits in front. *)
Lemma pretty_N_go_closed (Q : string → Prop) x s :
  (∀ d s', Q s' → Q (String (pretty_N_char d) s')) →
  Q s → Q (pretty_N_go x s).
Proof.
  intros Hstep. revert s.
  induction (N.lt_wf_0 x) as [x _ IH]; intros s Hs.
  assert (x = 0 ∨ 0 < x)%N as [->|Hpos] by lia.
  - by rewrite pretty_N_go_0.
  - rewrite pretty_N_go_step by done. apply IH; [by apply N.div_lt|].
    by apply Hstep.
Qed.

Lemma pretty_N_char_plain d s :
  singleLine (String (pretty_N_char d) s) = singleLine s
  ∧ solid (String (pretty_N_char d) s) = solid s.
Proof. unfold pretty_N_char. by repeat case_match. Qed.

Lemma pretty_Z_plain (z : Z) :
  singleLine (pretty z) = true ∧ solid (pretty z) = true.
Proof.
  assert (Hgo : ∀ x, singleLine (pretty_N_go x "") = true
                     ∧ solid (pretty_N_go x "") = true).
  { intros x.
    apply (pretty_N_go_closed (λ s, singleLine s = true ∧ solid s = true));
      [|done].
    intros d s' [Hline Hsolid].
    destruct (pretty_N_char_plain d s') as [-> ->]. done. }
  assert (HN : ∀ x : N, singleLine (pretty x) = true ∧ solid (pretty x) = true).
  { intros x. unfold pretty, pretty_N. by destruct (decide (x = 0%N)). }
  destruct z as [|p|p]; [done|apply (HN (Npos p))|].
  destruct (HN (Npos p)) as [Hline Hsolid].
  unfold pretty, pretty_Z. simpl. split; [apply Hline|apply Hsolid].
Qed.

Lemma trimEnd_solid s : solid s = true → Js.trimEnd s = s.
Proof.
  induction s as [|c r IH]; simpl; [done|].
  intros Hs. apply andb_true_iff in Hs as [Hc Hr].
  apply negb_true_iff in Hc. by rewrite (IH Hr), Hc, andb_false_r.
Qed.

Lemma trim_solid s : solid s = true → Js.trim s = s.
Proof.
  intros Hs. unfold Js.trim.
  assert (Hstart : Js.trimStart s = s).
  { destruct s as [|c r]; simpl in *; [done|].
    apply andb_true_iff in Hs as [Hc _]. apply negb_true_iff in Hc.
    by rewrite Hc. }
  rewrite Hstart. by apply trimEnd_solid.
Qed.

Lemma optSingleLine_interpolate o :
  optSingleLine o = true → singleLine (CarDoc.interpolate o) = true.
Proof. by destruct o. Qed.

Lemma optSingleLine_orElse o :
  optSingleLine o = true → singleLine (Js.orElse o "N/A") = true.
Proof. destruct o as [s|]; simpl; [|done]. by destruct s. Qed.

Lemma labelled_here line lines label fallback :
  startsWith label line = true →
  labelled (line :: lines) label fallback
  = Js.orElse (Some (Js.trim (replace label "" line))) fallback.
Proof. intros Hhere. unfold labelled. simpl. by rewrite Hhere. Qed.

Lemma labelled_skip line lines label fallback :
  startsWith label line = false →
  labelled (line :: lines) label fallback = labelled lines label fallback.
Proof. intros Hskip. unfold labelled. simpl. by rewrite Hskip. Qed.

Lemma orText_orElse value fallback :
  Js.isEmpty fallback = false →
  orText (Some (JStr (Js.orElse (Some value) fallback))) fallback
  = JStr (Js.orElse (Some value) fallback).
Proof.
  intros Hfallback. unfold orText, truthy, Js.orElse.
  destruct (Js.isEmpty value) eqn:Hvalue; by rewrite ?Hfallback, ?Hvalue.
Qed.
End ContextFacts.

(** The source card read back from the text of the bulk route's document.
    When a search result carries no name in its metadata, the card is parsed
    from the page content; for the text [transformCarToDocument] writes, and
    name, brand, category and description free of line feeds, the parse
    returns the trimmed name, brand and category (N/A for a missing
    category) and the price exactly as it was printed. *)
Theorem document_parses_back (car : Car) :
  RagContext.optSingleLine (name car) = true →
  RagContext.optSingleLine (brand car) = true →
  RagContext.optSingleLine (category car) = true →
  RagContext.optSingleLine (description car) = true →
  RagContext.sourceOf
    {| RagContext.pageContent :=
         CarDoc.pageContent (CarDoc.transformCarToDocument car);
       RagContext.metadata := None |}
  = {| RagContext.cardName :=
         JStr (Js.orElse (Some (Js.trim (CarDoc.interpolate (name car))))
                 "Unknown");
       RagContext.cardBrand :=
         JStr (Js.orElse (Some (Js.trim (CarDoc.interpolate (brand car))))
                 "Unknown");
       RagContext.cardPrice :=
         JStr (match price car with
               | Some p => if p =? 0 then "N/A" else "$" ++ pretty p
               | None => "N/A"
               end);
       RagContext.cardCategory :=
         JStr (Js.orElse (Some (Js.trim (Js.orElse (category car) "N/A")))
                 "Unknown") |}.
Proof.
  intros Hname Hbrand Hcategory Hdescription.
  apply optSingleLine_interpolate in Hname, Hbrand.
  apply optSingleLine_orElse in Hcategory, Hdescription.
  unfold RagContext.sourceOf, CarDoc.transformCarToDocument.
  cbn [RagContext.pageContent RagContext.metadata CarDoc.pageContent].
  set (n := CarDoc.interpolate (name car)) in *.
  set (b := CarDoc.interpolate (brand car)) in *.
  set (y := CarDoc.numberOrElse (modelYear car) "N/A").
  set (c := Js.orElse (category car) "N/A") in *.
  set (d := Js.orElse (description car) "N/A") in *.
  set (p := match price car with
            | Some p => if p =? 0 then "N/A" else "$" ++ pretty p
            | None => "N/A"
            end).
  set (rest := "Fuel Type: " ++ _).
  set (content := "Car: " ++ _).
  assert (Hy : RagContext.singleLine y = true).
  { subst y. unfold CarDoc.numberOrElse.
    destruct (modelYear car) as [z|]; [|done].
    destruct (z =? 0); [done|apply pretty_Z_plain]. }
  assert (Hp : RagContext.singleLine p = true ∧ RagContext.solid p = true
               ∧ Js.isEmpty p = false).
  { subst p. destruct (price car) as [z|]; [|done].
    destruct (z =? 0); [done|].
    destruct (pretty_Z_plain z) as [Hline Hsolid].
    change ("$" ++ pretty z) with (String "$" (pretty z)).
    simpl. by rewrite Hline, Hsolid. }
  destruct Hp as (Hp & Hsolid & Hfilled).
  assert (Hlines : RagContext.splitLines content
    = ("Car: " ++ n) :: ("Brand: " ++ b) :: ("Model Year: " ++ y)
      :: ("Category: " ++ c) :: ("Description: " ++ d) :: ("Price: " ++ p)
      :: RagContext.splitLines rest).
  { subst content.
    rewrite <- (string_app_assoc "Car: " n),
      (splitLines_line ("Car: " ++ n))
      by (by rewrite singleLine_app, Hname).
    rewrite <- (string_app_assoc "Brand: " b),
      (splitLines_line ("Brand: " ++ b))
      by (by rewrite singleLine_app, Hbrand).
    rewrite <- (string_app_assoc "Model Year: " y),
      (splitLines_line ("Model Year: " ++ y))
      by (by rewrite singleLine_app, Hy).
    rewrite <- (string_app_assoc "Category: " c),
      (splitLines_line ("Category: " ++ c))
      by (by rewrite singleLine_app, Hcategory).
    rewrite <- (string_app_assoc "Description: " d),
      (splitLines_line ("Description: " ++ d))
      by (by rewrite singleLine_app, Hdescription).
    rewrite <- (string_app_assoc "Price: " p),
      (splitLines_line ("Price: " ++ p))
      by (by rewrite singleLine_app, Hp).
    done. }
  assert (Hfield : ∀ key,
    RagContext.field
      {| RagContext.pageContent := content; RagContext.metadata := None |} key
    = None).
  { intros key. unfold RagContext.field. simpl. by rewrite lookup_empty. }
  rewrite !Hfield, Hlines.
  assert (Hfull : Js.isEmpty content = false) by done.
  rewrite Hfull. cbn [RagContext.truthy negb andb].
  rewrite (labelled_here _ _ "Car:") by done.
  rewrite (labelled_skip _ _ "Brand:"), (labelled_here _ _ "Brand:") by done.
  rewrite !(labelled_skip _ _ "Price:"), (labelled_here _ _ "Price:") by done.
  rewrite !(labelled_skip _ _ "Category:"), (labelled_here _ _ "Category:")
    by done.
  change (RagContext.replace "Car:" "" ("Car: " ++ n)) with (String " " n).
  change (RagContext.replace "Brand:" "" ("Brand: " ++ b)) with (String " " b).
  change (RagContext.replace "Price:" "" ("Price: " ++ p)) with (String " " p).
  change (RagContext.replace "Category:" "" ("Category: " ++ c))
    with (String " " c).
  change (Js.trim (String " " n)) with (Js.trim n).
  change (Js.trim (String " " b)) with (Js.trim b).
  change (Js.trim (String " " p)) with (Js.trim p).
  change (Js.trim (String " " c)) with (Js.trim c).
  rewrite (trim_solid p Hsolid).
  rewrite !orText_orElse by done.
  f_equal. unfold Js.orElse. by rewrite Hfilled.
Qed.

Lemma document_parses_back_witness :
  RagContext.sourceOf
    {| RagContext.pageContent :=
         CarDoc.pageContent (CarDoc.transformCarToDocument Scenario.corolla);
       RagContext.metadata := None |}
  = {| RagContext.cardName := JStr "Corolla";
       RagContext.cardBrand := JStr "Toyota";
       RagContext.cardPrice := JStr "$20000";
       RagContext.cardCategory := JStr "N/A" |}.
Proof.
  exact (document_parses_back Scenario.corolla eq_refl eq_refl eq_refl eq_refl).
Defined.

Section CardFacts.
Import RagContext.

(** The name and price the listener stores with a vector record. *)
Lemma vectorDocument_metadata car text vector :
  VectorSync.metadata (VectorSync.vectorDocument car text vector) !! "name"
  = JStr <$> name car
  ∧ VectorSync.metadata (VectorSync.vectorDocument car text vector) !! "price"
    = JNum <$> price car.
Proof.
  unfold VectorSync.vectorDocument, object. simpl.
  destruct (name car), (brand car), (category car), (price car); done.
Qed.

Lemma string_app_empty (s : string) : s ++ "" = s.
Proof. induction s as [|c s IH]; [done|]. by rewrite string_app_cons, IH. Qed.
End CardFacts.

(** The price stored by the change listener reaches the prompt: for a search
    result whose nested metadata is the one [upsertEmbeddingForCar] wrote for
    a named car, the context block is the stored text followed by a CURRENT
    PRICE line carrying that price, and the source card shows the name and
    price; a price of 0 or no price gives no such line and the card N/A. *)
Theorem stored_price_reaches_context (car : Car) (text n : string)
    (vector : VectorSync.Embedding) (index : nat)
    (own : gmap string JsVal) :
  name car = Some n →
  Js.isEmpty n = false →
  RagContext.truthy (own !! "name") = false →
  RagContext.truthy (own !! "price") = false →
  let r :=
    {| RagContext.pageContent := text;
       RagContext.metadata :=
         Some {| RagContext.own := own;
                 RagContext.nested :=
                   Some (VectorSync.metadata
                           (VectorSync.vectorDocument car text vector)) |} |} in
  RagContext.contextPart index r
  = "[Car " ++ pretty (index + 1)%nat ++ "]" ++ CarDoc.nl ++ text ++
    match price car with
    | Some p =>
        if p =? 0 then ""
        else CarDoc.nl ++ "CURRENT PRICE: $" ++ pretty p
    | None => ""
    end
  ∧ RagContext.cardName (RagContext.sourceOf r) = JStr n
  ∧ RagContext.cardPrice (RagContext.sourceOf r)
    = match price car with
      | Some p => if p =? 0 then JStr "N/A" else JNum p
      | None => JStr "N/A"
      end.
Proof.
  intros Hname Hn Hown_name Hown_price r.
  destruct (vectorDocument_metadata car text vector) as [Hmn Hmp].
  assert (Hfn : RagContext.field r "name" = Some (JStr n)).
  { change (RagContext.field r "name")
      with (RagContext.orValue (own !! "name")
              (VectorSync.metadata (VectorSync.vectorDocument car text vector)
                 !! "name")).
    unfold RagContext.orValue. by rewrite Hown_name, Hmn, Hname. }
  assert (Hfp : RagContext.field r "price" = JNum <$> price car).
  { change (RagContext.field r "price")
      with (RagContext.orValue (own !! "price")
              (VectorSync.metadata (VectorSync.vectorDocument car text vector)
                 !! "price")).
    unfold RagContext.orValue. by rewrite Hown_price, Hmp. }
  unfold RagContext.contextPart, RagContext.sourceOf.
  rewrite Hfn, Hfp. cbn [RagContext.truthy]. rewrite Hn.
  cbn [negb andb]. subst r. cbn [RagContext.pageContent].
  destruct (price car) as [p|]; simpl.
  - destruct (p =? 0); simpl; rewrite ?string_app_empty, Hn; done.
  - by rewrite string_app_empty, Hn.
Qed.

Lemma stored_price_reaches_context_witness :
  RagContext.contextPart 0
    {| RagContext.pageContent := "Corolla Toyota";
       RagContext.metadata :=
         Some {| RagContext.own := Cases.ownFields;
                 RagContext.nested :=
                   Some (VectorSync.metadata
                           (VectorSync.vectorDocument Scenario.corolla
                              "Corolla Toyota" [14])) |} |}
  = "[Car 1]" ++ CarDoc.nl ++ "Corolla Toyota" ++ CarDoc.nl ++
    "CURRENT PRICE: $20000".
Proof.
  destruct (stored_price_reaches_context Scenario.corolla "Corolla Toyota"
              "Corolla" [14] 0 Cases.ownFields
              eq_refl eq_refl ltac:(vm_compute; reflexivity)
              ltac:(vm_compute; reflexivity)) as [Hcontext _].
  exact Hcontext.
Defined.

(** A search result without a name in its metadata gets its whole source
    card from the page content: brand, price and category found in the
    metadata are dropped, as if there were no metadata at all. *)
Theorem nameless_metadata_ignored (r : RagContext.SearchResult) :
  RagContext.truthy (RagContext.field r "name") = false →
  Js.isEmpty (RagContext.pageContent r) = false →
  RagContext.sourceOf r
  = RagContext.sourceOf
      {| RagContext.pageContent := RagContext.pageContent r;
         RagContext.metadata := None |}.
Proof.
  intros Hname Hcontent. unfold RagContext.sourceOf.
  rewrite Hname, Hcontent. cbn [negb andb RagContext.pageContent].
  rewrite Hcontent.
  assert (Hfield : RagContext.field
            {| RagContext.pageContent := RagContext.pageContent r;
               RagContext.metadata := None |} "name" = None).
  { unfold RagContext.field. simpl. by rewrite lookup_empty. }
  by rewrite Hfield.
Qed.

Lemma nameless_metadata_ignored_witness :
  RagContext.cardPrice (RagContext.sourceOf Cases.nameless) = JStr "N/A".
Proof.
  rewrite (nameless_metadata_ignored Cases.nameless
             ltac:(vm_compute; reflexivity) eq_refl).
  reflexivity.
Defined.

(** ** The bulk route *)

Section BulkFacts.
Import CarController.

Lemma createCars_spec env i items created errors w created' errors' w' :
  createCars env i items created errors w = (created', errors', w') →
  createCalls w' = (createCalls w ++ filter acceptable items)%list
  ∧ carVectors w' = carVectors w
  ∧ (∃ new, created' = (created ++ new)%list
            ∧ carProducts w' = (carProducts w ++ new)%list
            ∧ (length new ≤ length (filter acceptable items))%nat)
  ∧ (length created' + length errors'
     = length created + length errors + length items)%nat.
Proof.
  revert i created errors w.
  induction items as [|carData rest IH]; intros i created errors w; simpl.
  - intros [= <- <- <-]. rewrite !app_nil_r.
    split; [done|]. split; [done|]. split; [|lia].
    exists []. by rewrite !app_nil_r.
  - rewrite filter_cons.
    destruct (decide (acceptable carData)) as [Hacc|Hnot]; unfold acceptable in *.
    + rewrite Hacc.
      destruct (createResult env carData) as [car|message]; intros Hrun;
        destruct (IH _ _ _ _ Hrun)
          as (Hcalls & Hvectors & (new & Hc & Hp & Hb) & Hlen);
        simpl in *.
      * split; [by rewrite Hcalls, <- app_assoc|]. split; [done|]. split.
        -- exists (car :: new). rewrite Hc, Hp, <- !app_assoc.
           split; [done|]. split; [done|]. simpl. lia.
        -- rewrite length_app in Hlen. simpl in Hlen. lia.
      * split; [by rewrite Hcalls, <- app_assoc|]. split; [done|].
        split; [exists new; split; [done|]; split; [done|]; simpl; lia|].
        rewrite length_app in Hlen. simpl in Hlen. lia.
    + apply not_false_is_true in Hnot. rewrite Hnot. intros Hrun.
      destruct (IH _ _ _ _ Hrun) as (Hcalls & Hvectors & Hnew & Hlen).
      split; [done|]. split; [done|]. split; [done|].
      rewrite length_app in Hlen. simpl in Hlen. lia.
Qed.

Lemma saveVectors_spec env all todo cars results errors w results' errors' w' :
  saveVectors env all todo cars results errors w = (results', errors', w') →
  createCalls w' = createCalls w
  ∧ carProducts w' = carProducts w
  ∧ (∃ saved, carVectors w' = (carVectors w ++ saved)%list
      ∧ (length saved + length errors' = length errors + length todo)%nat
      ∧ ((∀ p, p ∈ todo → is_Some (findIndex (metadata p) cars)) →
         length results' = (length results + length saved)%nat)).
Proof.
  revert results errors w.
  induction todo as [|p rest IH]; intros results errors w; simpl.
  - intros [= <- <- <-]. split; [done|]. split; [done|].
    exists []. rewrite app_nil_r. split; [done|]. split; [simpl; lia|].
    intros _. simpl. lia.
  - destruct (vectorCreateResult env (vectorRecord p)) as [[]|message];
      intros Hrun;
      destruct (IH _ _ _ Hrun) as (Hcalls & Hproducts & saved & Hv & Hlen & Hres);
      simpl in *.
    + split; [done|]. split; [done|]. exists (vectorRecord p :: saved).
      split; [by rewrite Hv, <- app_assoc|]. split; [simpl; lia|].
      intros Hfound. rewrite Hres.
      * destruct (Hfound p) as [carIndex ->]; [apply list_elem_of_here|].
        rewrite length_app. simpl. lia.
      * intros q Hq. apply Hfound. by apply list_elem_of_further.
    + split; [done|]. split; [done|]. exists saved.
      split; [done|]. split; [rewrite length_app in Hlen; simpl in Hlen; lia|].
      intros Hfound. apply Hres. intros q Hq. apply Hfound.
      by apply list_elem_of_further.
Qed.

Lemma splitAll_metadata env documents splitDocs :
  splitAll env documents = Ok splitDocs →
  ∀ d, d ∈ splitDocs →
       ∃ doc, doc ∈ documents ∧ CarDoc.metadata d = CarDoc.metadata doc.
Proof.
  revert splitDocs. induction documents as [|doc rest IH]; intros splitDocs; simpl.
  - intros [= <-] d Hd. by apply not_elem_of_nil in Hd.
  - destruct (splitResult env doc) as [chunks|]; [|done].
    destruct (splitAll env rest) as [restDocs|]; [|done].
    intros [= <-] d Hd. apply elem_of_app in Hd as [Hd|Hd].
    + apply list_elem_of_fmap in Hd as (text & -> & _).
      exists doc. split; [apply list_elem_of_here|done].
    + destruct (IH _ eq_refl d Hd) as (doc' & Hin & Heq).
      exists doc'. split; [by apply list_elem_of_further|done].
Qed.

Lemma findIndex_found car cars :
  car ∈ cars →
  is_Some (findIndex (CarDoc.metadata (CarDoc.transformCarToDocument car)) cars).
Proof.
  assert (Hid : ∀ c, CarDoc.metadata (CarDoc.transformCarToDocument c) !! "carId"
                     = Some (JStr (_id c))).
  { intros c. unfold CarDoc.transformCarToDocument, object. simpl.
    destruct (name c), (brand c), (category c), (price c); done. }
  induction cars as [|c rest IH]; intros Hin.
  - by apply not_elem_of_nil in Hin.
  - cbn [findIndex]. unfold sameCar, idValue.
    rewrite Hid, lookup_singleton_eq. unfold toString.
    destruct (decide (_id c = _id car)) as [Heq|Hne].
    + rewrite bool_decide_eq_true_2 by done. eauto.
    + rewrite bool_decide_eq_false_2 by done.
      apply elem_of_cons in Hin as [->|Hin]; [done|].
      destruct (IH Hin) as [k ->]. simpl. eauto.
Qed.

Lemma processCarDocuments_found env cars processedDocs :
  processCarDocuments env cars = Ok processedDocs →
  ∀ p, p ∈ processedDocs → is_Some (findIndex (metadata p) cars).
Proof.
  unfold processCarDocuments.
  destruct (splitAll env (map CarDoc.transformCarToDocument cars))
    as [splitDocs|] eqn:Hsplit; [|done].
  destruct (embedDocumentsResult env _) as [vectors|]; [|done].
  intros [= <-] p Hp.
  apply list_elem_of_lookup in Hp as [k Hk].
  rewrite list_lookup_imap in Hk.
  destruct (splitDocs !! k) as [d|] eqn:Hd; [|done]. simpl in Hk.
  injection Hk as <-. simpl.
  destruct (splitAll_metadata _ _ _ Hsplit d) as (doc & Hin & ->).
  { apply list_elem_of_lookup. eauto. }
  apply list_elem_of_fmap in Hin as (car & -> & Hcar).
  by apply findIndex_found.
Qed.
(** What steps 2 and 3 leave: no call to the store of cars, the vector
    documents saved, one result per document saved. *)
Lemma embedAndSave_spec env created errors w results errors' w' :
  embedAndSave env created errors w = (results, errors', w') →
  createCalls w' = createCalls w
  ∧ carProducts w' = carProducts w
  ∧ (∃ saved, carVectors w' = (carVectors w ++ saved)%list
              ∧ length results = length saved)
  ∧ (created = [] → w' = w ∧ results = [] ∧ errors' = errors).
Proof.
  unfold embedAndSave. destruct created as [|car rest]; simpl.
  { intros [= <- <- <-]. split; [done|]. split; [done|].
    split; [exists []; by rewrite app_nil_r|done]. }
  destruct (processCarDocuments env (car :: rest)) as [docs|message] eqn:Hdocs.
  - intros Hsave.
    destruct (saveVectors_spec _ _ _ _ _ _ _ _ _ _ Hsave)
      as (Hcalls & Hproducts & saved & Hv & _ & Hres).
    split; [done|]. split; [done|]. split; [|done].
    exists saved. split; [done|]. apply Hres.
    by apply (processCarDocuments_found env (car :: rest)).
  - intros [= <- <- <-]. split; [done|]. split; [done|].
    split; [exists []; by rewrite app_nil_r|done].
Qed.
End BulkFacts.

Section RouteFacts.
Import CarController.

Lemma addCarProduct_run env request w :
  carDataArrayOf request ≠ [] →
  ∃ created errors1 w1 results errors w',
    createCars env 0 (carDataArrayOf request) [] [] w = (created, errors1, w1)
    ∧ embedAndSave env created errors1 w1 = (results, errors, w')
    ∧ addCarProduct env request w
      = (respond (isArray request) (carDataArrayOf request) results errors, w').
Proof.
  intros Hsome. unfold addCarProduct.
  rewrite bool_decide_eq_false_2
    by (destruct (carDataArrayOf request); [done|simpl; lia]).
  destruct (createCars env 0 (carDataArrayOf request) [] [] w)
    as [[created errors1] w1].
  destruct (embedAndSave env created errors1 w1)
    as [[results errors] w'] eqn:Hsave.
  by exists created, errors1, w1, results, errors, w'.
Qed.

Lemma World_eq (w w' : World) :
  createCalls w' = createCalls w → carProducts w' = carProducts w →
  carVectors w' = carVectors w → w' = w.
Proof. destruct w, w'. simpl. by intros -> -> ->. Qed.

Lemma filter_rejected (items : list Car) :
  Forall (λ carData, ¬ acceptable carData) items →
  filter acceptable items = [].
Proof.
  induction 1 as [|carData rest Hnot _ IH]; [done|].
  by rewrite filter_cons_False.
Qed.

Lemma processCarDocuments_throws env cars message :
  processCarDocuments env cars = Throw message →
  ∃ cause, message = "Pipeline processing failed: " ++ cause.
Proof.
  unfold processCarDocuments.
  destruct (splitAll env _) as [splitDocs|cause].
  - destruct (embedDocumentsResult env _) as [vectors|cause]; [done|].
    intros [= <-]. by exists cause.
  - intros [= <-]. by exists cause.
Qed.
End RouteFacts.

(** The bulk route hands to [CarProduct.create] exactly the request objects
    that have a name and a brand, in the order of the request, whatever the
    store, the splitter and the provider answer; both collections only grow,
    the collection of cars by at most one record per such object. *)
Theorem bulk_creates_only_acceptable (env : CarController.Env)
    (request : CarController.Request) (w : CarController.World) :
  CarController.createCalls (CarController.addCarProduct env request w).2
  = (CarController.createCalls w
     ++ filter CarController.acceptable
          (CarController.carDataArrayOf request))%list
  ∧ (∃ new,
       CarController.carProducts (CarController.addCarProduct env request w).2
       = (CarController.carProducts w ++ new)%list
       ∧ (length new
          ≤ length (filter CarController.acceptable
                      (CarController.carDataArrayOf request)))%nat)
  ∧ (∃ saved,
       CarController.carVectors (CarController.addCarProduct env request w).2
       = (CarController.carVectors w ++ saved)%list).
Proof.
  destruct (decide (CarController.carDataArrayOf request = [])) as [Hnone|Hsome].
  { unfold CarController.addCarProduct. rewrite Hnone. simpl.
    rewrite app_nil_r. split; [done|].
    split; exists []; by rewrite app_nil_r. }
  destruct (addCarProduct_run env request w Hsome)
    as (created & errors1 & w1 & results & errors & w' & Hcreate & Hsave & ->).
  cbn [snd].
  destruct (createCars_spec _ _ _ _ _ _ _ _ _ Hcreate)
    as (Hcalls & Hvectors & (new & _ & Hproducts & Hbound) & _).
  destruct (embedAndSave_spec _ _ _ _ _ _ _ Hsave)
    as (Hcalls' & Hproducts' & (saved & Hsaved & _) & _).
  split; [by rewrite Hcalls', Hcalls|]. split.
  - exists new. by rewrite Hproducts', Hproducts.
  - exists saved. by rewrite Hsaved, Hvectors.
Qed.

(** A request none of whose objects has both a name and a brand leaves the
    store of cars and the vector store as they were, and is answered 400 (one
    object, or an empty array) or 207 (an array). *)
Theorem rejected_request_changes_nothing (env : CarController.Env)
    (request : CarController.Request) (w : CarController.World) :
  Forall (λ carData, ¬ CarController.acceptable carData)
    (CarController.carDataArrayOf request) →
  (CarController.addCarProduct env request w).2 = w
  ∧ CarController.status (CarController.addCarProduct env request w).1
    = match request with
      | CarController.Many (_ :: _) => 207
      | _ => 400
      end.
Proof.
  intros Hnone. apply filter_rejected in Hnone.
  destruct (decide (CarController.carDataArrayOf request = [])) as [Hempty|Hsome].
  { unfold CarController.addCarProduct. rewrite Hempty. simpl.
    split; [done|]. by destruct request as [carData|[|carData rest]]. }
  destruct (addCarProduct_run env request w Hsome)
    as (created & errors1 & w1 & results & errors & w' & Hcreate & Hsave & ->).
  cbn [fst snd].
  destruct (createCars_spec _ _ _ _ _ _ _ _ _ Hcreate)
    as (Hcalls & Hvectors & (new & Hcreated & Hproducts & Hbound) & Hlen).
  rewrite Hnone in Hcalls, Hbound. simpl in Hbound, Hcreated.
  destruct new as [|car new]; [|simpl in Hbound; lia].
  rewrite app_nil_r in Hcalls, Hproducts. subst created.
  assert (Hw1 : w1 = w) by by apply World_eq.
  destruct (embedAndSave_spec _ _ _ _ _ _ _ Hsave)
    as (_ & _ & _ & Hidle).
  destruct (Hidle eq_refl) as (-> & -> & ->).
  split; [done|]. simpl in Hlen.
  unfold CarController.respond.
  destruct request as [carData|[|carData rest]]; simpl in *; [done|done|].
  destruct errors1 as [|e errors1]; [simpl in Hlen; lia|done].
Qed.

Lemma rejected_request_changes_nothing_witness :
  (CarController.addCarProduct CarController.accepting
     (CarController.Many [Scenario.car "c3" (Some "Ghost") None None])
     CarController.empty).2 = CarController.empty.
Proof.
  assert (Hnone : Forall (λ carData, ¬ CarController.acceptable carData)
                    [Scenario.car "c3" (Some "Ghost") None None]).
  { repeat constructor. unfold CarController.acceptable. simpl. discriminate. }
  exact (proj1 (rejected_request_changes_nothing CarController.accepting
                  (CarController.Many
                     [Scenario.car "c3" (Some "Ghost") None None])
                  CarController.empty Hnone)).
Defined.

(** The summary of an array request counts vector documents, not cars: its
    [totalProcessed] is the length of the array, and its [successful] is the
    number of documents the request added to the vector store. *)
Theorem summary_counts_vector_documents (env : CarController.Env)
    (carDataArray : list Car) (w : CarController.World) :
  carDataArray ≠ [] →
  ∃ message failed results errors saved,
    CarController.body
      (CarController.addCarProduct env (CarController.Many carDataArray) w).1
    = CarController.Summary message (length carDataArray) (length saved)
        failed results errors
    ∧ CarController.carVectors
        (CarController.addCarProduct env (CarController.Many carDataArray) w).2
      = (CarController.carVectors w ++ saved)%list.
Proof.
  intros Hsome.
  destruct (addCarProduct_run env (CarController.Many carDataArray) w Hsome)
    as (created & errors1 & w1 & results & errors & w' & Hcreate & Hsave & ->).
  cbn [fst snd CarController.isArray CarController.carDataArrayOf].
  destruct (createCars_spec _ _ _ _ _ _ _ _ _ Hcreate)
    as (_ & Hvectors & _ & _).
  destruct (embedAndSave_spec _ _ _ _ _ _ _ Hsave)
    as (_ & _ & (saved & Hsaved & Hresults) & _).
  unfold CarController.respond. cbn [CarController.body].
  rewrite Hresults, Hsaved, Hvectors. eauto 10.
Qed.

Lemma summary_counts_vector_documents_witness :
  ∃ message failed results errors saved,
    CarController.body
      (CarController.addCarProduct CarController.halving
         (CarController.Many [Scenario.corolla]) CarController.empty).1
    = CarController.Summary message 1 (length saved) failed results errors
    ∧ CarController.carVectors
        (CarController.addCarProduct CarController.halving
           (CarController.Many [Scenario.corolla]) CarController.empty).2
      = saved.
Proof.
  apply (summary_counts_vector_documents CarController.halving
           [Scenario.corolla] CarController.empty).
  discriminate.
Defined.

(** No rollback: when the store accepts the one car of a request and the
    embedding pipeline then fails, the car stays in the collection, nothing
    reaches the vector store, and the answer is 400 "Failed to add car" at
    stage pipeline_processing, its error carrying the pipeline prefix
    twice. *)
Theorem pipeline_failure_keeps_car (env : CarController.Env)
    (carData car : Car) (message : string) (w : CarController.World) :
  CarController.acceptable carData →
  CarController.createResult env carData = Ok car →
  CarController.processCarDocuments env [car] = Throw message →
  CarController.addCarProduct env (CarController.One carData) w
  = ({| CarController.status := 400;
        CarController.body :=
          CarController.FailedToAdd
            ("Pipeline processing failed: " ++ message)
            "pipeline_processing" |},
     {| CarController.createCalls :=
          (CarController.createCalls w ++ [carData])%list;
        CarController.carProducts :=
          (CarController.carProducts w ++ [car])%list;
        CarController.carVectors := CarController.carVectors w |})
  ∧ ∃ cause,
      "Pipeline processing failed: " ++ message
      = "Pipeline processing failed: Pipeline processing failed: " ++ cause.
Proof.
  intros Hacc Hcreate Hpipeline. split.
  - unfold CarController.addCarProduct, CarController.acceptable in *.
    simpl. rewrite Hacc, Hcreate. unfold CarController.embedAndSave. simpl.
    rewrite Hpipeline. simpl. done.
  - destruct (processCarDocuments_throws _ _ _ Hpipeline) as [cause ->].
    exists cause. by rewrite <- string_app_assoc.
Qed.

Lemma pipeline_failure_keeps_car_witness :
  CarController.carProducts
    (CarController.addCarProduct CarController.withoutProvider
       (CarController.One Scenario.corolla) CarController.empty).2
  = [Scenario.corolla].
Proof.
  destruct (pipeline_failure_keeps_car CarController.withoutProvider
              Scenario.corolla Scenario.corolla
              "Pipeline processing failed: 429 Too Many Requests"
              CarController.empty
              ltac:(vm_compute; reflexivity) eq_refl
              ltac:(vm_compute; reflexivity)) as [-> _].
  reflexivity.
Defined.
